(** * lbrynet stream downloader: a shallow embedding

    Source: [lbrynet/stream/downloader.py].

    The module has two parts that the properties below are about:

    - [AsyncGeneratorJunction], the helper that interleaves several async
      generators into one (module [Junction]);
    - [StreamDownloader], the multi-peer downloader with its connection
      pool, request ledger, [get_blob] loop and [stop]/[_download]
      teardown (module [Downloader]).

    asyncio is cooperative: a coroutine runs without interruption between
    two suspension points.  The embedding therefore cuts every coroutine
    into its atomic segments (the code between two [await]s that can
    suspend) and lets the other tasks run only between segments. *)

From stdpp Require Import gmap strings list fin_maps.
From Stdlib Require Import ZArith.

Open Scope Z_scope.
Open Scope nat_scope.

(** ** Exceptions *)

Inductive exn :=
  | TimeoutError
  | KeyError
  | CancelledError
  | AttributeError
  | StopAsyncIteration
  | OtherError (msg : string).

Inductive result (A : Type) :=
  | Ok (a : A)
  | Raise (e : exn).
Arguments Ok {A} a.
Arguments Raise {A} e.

#[global] Instance exn_eq_dec : EqDecision exn.
Proof. solve_decision. Defined.

Module Downloader.

(** A peer is known to the downloader by identity only. *)
Definition peer := nat.

(** Modelled from the spec: the chunk store ([BlobFileManager], [BlobFile])
    is not part of the sources.  A handle is identified by its content
    hash; the store reports which hashes are verified. *)
Record BlobFile := { blob_hash : string }.

#[global] Instance BlobFile_eq_dec : EqDecision BlobFile.
Proof. solve_decision. Defined.

Definition blob_manager_get_blob (h : string) (length : option Z) : BlobFile :=
  {| blob_hash := h |}.

(** Calls made to the collaborators, in the order they are made. *)
Inductive call :=
  | RequestBlobs (p : peer) (b : option BlobFile)
  | DisconnectTcp (p : peer)
  | PeerFinderStop
  | FinishedCallback.

#[global] Instance call_eq_dec : EqDecision call.
Proof. solve_decision. Defined.

(** An [asyncio.Task] attribute: [None], a task that has not finished (with
    its cancellation request flag), a finished task, a cancelled task. *)
Inductive task :=
  | NoTask
  | Pending (must_cancel : bool)
  | Finished
  | Cancelled.

Definition task_done (t : task) : bool :=
  match t with Finished | Cancelled => true | _ => false end.

Definition task_cancelled (t : task) : bool :=
  match t with Cancelled => true | _ => false end.

Definition task_truthy (t : task) : bool :=
  match t with NoTask => false | _ => true end.

Definition task_cancel (t : task) : task :=
  match t with Pending _ => Pending true | _ => t end.

(** The attributes of a [StreamDownloader] that the scheduler and the
    teardown use, the verification state of the chunk store, the trace of
    calls to the collaborators, and [scheduled]: the fetch tasks that
    [asyncio.wait] has wrapped and scheduled and that have not run their
    first step yet. *)
Record state := mkState {
  connections : gset peer;
  has_peers : bool;
  tasks : list peer;
  requests : gmap string (list peer);
  current_blob : option BlobFile;
  lock : bool;
  accumulator_task : task;
  download_task : task;
  verified : gset string;
  calls : list call;
  scheduled : list peer
}.

Definition set_connections (c : gset peer) (st : state) : state :=
  mkState c (has_peers st) (tasks st) (requests st) (current_blob st) (lock st)
          (accumulator_task st) (download_task st) (verified st) (calls st) (scheduled st).

Definition set_has_peers (b : bool) (st : state) : state :=
  mkState (connections st) b (tasks st) (requests st) (current_blob st) (lock st)
          (accumulator_task st) (download_task st) (verified st) (calls st) (scheduled st).

Definition set_tasks (t : list peer) (st : state) : state :=
  mkState (connections st) (has_peers st) t (requests st) (current_blob st) (lock st)
          (accumulator_task st) (download_task st) (verified st) (calls st) (scheduled st).

Definition set_requests (r : gmap string (list peer)) (st : state) : state :=
  mkState (connections st) (has_peers st) (tasks st) r (current_blob st) (lock st)
          (accumulator_task st) (download_task st) (verified st) (calls st) (scheduled st).

Definition set_current_blob (b : option BlobFile) (st : state) : state :=
  mkState (connections st) (has_peers st) (tasks st) (requests st) b (lock st)
          (accumulator_task st) (download_task st) (verified st) (calls st) (scheduled st).

Definition set_lock (l : bool) (st : state) : state :=
  mkState (connections st) (has_peers st) (tasks st) (requests st) (current_blob st) l
          (accumulator_task st) (download_task st) (verified st) (calls st) (scheduled st).

Definition set_accumulator_task (t : task) (st : state) : state :=
  mkState (connections st) (has_peers st) (tasks st) (requests st) (current_blob st) (lock st)
          t (download_task st) (verified st) (calls st) (scheduled st).

Definition set_download_task (t : task) (st : state) : state :=
  mkState (connections st) (has_peers st) (tasks st) (requests st) (current_blob st) (lock st)
          (accumulator_task st) t (verified st) (calls st) (scheduled st).

Definition set_verified (v : gset string) (st : state) : state :=
  mkState (connections st) (has_peers st) (tasks st) (requests st) (current_blob st) (lock st)
          (accumulator_task st) (download_task st) v (calls st) (scheduled st).

Definition add_calls (cs : list call) (st : state) : state :=
  mkState (connections st) (has_peers st) (tasks st) (requests st) (current_blob st) (lock st)
          (accumulator_task st) (download_task st) (verified st) (calls st ++ cs) (scheduled st).

Definition set_scheduled (l : list peer) (st : state) : state :=
  mkState (connections st) (has_peers st) (tasks st) (requests st) (current_blob st) (lock st)
          (accumulator_task st) (download_task st) (verified st) (calls st) l.

(** [StreamDownloader.__init__] *)
Definition init : state :=
  mkState ∅ false [] ∅ None false NoTask NoTask ∅ [] [].

Definition get_is_verified (b : BlobFile) (st : state) : bool :=
  bool_decide (blob_hash b ∈ verified st).

(** The ledger entry [self.requests[h]]; an absent key reads as empty here. *)
Definition ledger (st : state) (h : string) : list peer :=
  default [] (requests st !! h).

(** ** [_update_requests] (lines 133-139) *)

(** One iteration of [for peer in self.connections]. *)
Definition ask_peer (h : string) (st : state) (p : peer) : state :=
  if bool_decide (p ∈ ledger st h) then st
  else set_tasks (tasks st ++ [p])
         (set_requests (<[h := ledger st h ++ [p]]> (requests st)) st).

Definition _update_requests (st : state) : result state :=
  match current_blob st with
  | None => Raise AttributeError
  | Some b =>
      let h := blob_hash b in
      let st1 := match requests st !! h with
                 | Some _ => st
                 | None => set_requests (<[h := []]> (requests st)) st
                 end in
      Ok (foldl (ask_peer h) st1 (elements (connections st1)))
  end.

(** ** [_request_blob] (lines 120-131)

    The first step of the task (lines 121-123) issues
    [peer.request_blobs([self.current_blob], ...)]; the task later receives
    the outcome of that call. *)

Definition _request_blob_start (st : state) (p : peer) : state :=
  add_calls [RequestBlobs p (current_blob st)] st.

(** The part after the awaited request: [None] stands for a coroutine that
    is suspended in [self.lock.acquire()] because the lock is held. *)
Definition _request_blob (p : peer) (outcome : result unit) (st : state)
  : option (result unit * state) :=
  match outcome with
  | Raise TimeoutError =>
      if lock st then None
      else
        let st1 := set_lock true st in
        if bool_decide (p ∈ connections st1) then
          let st2 := set_connections (connections st1 ∖ {[p]}) st1 in
          let st3 := if bool_decide (connections st2 = ∅)
                     then set_has_peers false st2 else st2 in
          Some (Ok tt, set_lock false st3)
        else
          (* set.remove raises KeyError; the finally clause releases the lock *)
          Some (Raise KeyError, set_lock false st1)
  | _ => Some (outcome, st)
  end.

(** ** [_accumulate_connections] (lines 179-189): the body of the loop after
    [connect_tcp] has returned [connected]. *)
Definition _accumulate_connections (p : peer) (connected : bool) (st : state)
  : option state :=
  if connected then
    if lock st then None
    else
      let st1 := set_lock true st in
      let st2 := set_connections (connections st1 ∪ {[p]}) st1 in
      let st3 := if negb (has_peers st2) then set_has_peers true st2 else st2 in
      Some (set_lock false st3)
  else Some st.

(** ** [stop] (lines 191-198) *)

(** [while self.connections: self.connections.pop().disconnect_tcp()]; the
    members are popped in the iteration order of the set. *)
Definition disconnect_one (st : state) (p : peer) : state :=
  add_calls [DisconnectTcp p] (set_connections (connections st ∖ {[p]}) st).

Definition stop (st : state) : state :=
  let st1 :=
    if task_truthy (accumulator_task st)
       && negb (task_done (accumulator_task st) || task_cancelled (accumulator_task st))
    then set_accumulator_task (task_cancel (accumulator_task st)) st else st in
  let st2 :=
    if task_truthy (download_task st1)
       && negb (task_done (download_task st1) || task_cancelled (download_task st1))
    then set_download_task (task_cancel (download_task st1)) st1 else st1 in
  let st3 := add_calls [PeerFinderStop] st2 in
  foldl disconnect_one st3 (elements (connections st3)).

(** ** [get_blob] (lines 141-177) *)

(** The places where [get_blob] can be suspended. *)
Inductive pc :=
  | L142 (blob_hash : string) (length : option Z)  (* await self.lock.acquire() *)
  | L159                                           (* await self.lock.acquire() *)
  | L172                                           (* await asyncio.wait(tasks, ...) *)
  | L173.                                          (* await asyncio.wait([has_peers, finished_writing]) *)

Inductive ctl :=
  | Return (b : BlobFile)
  | Throw (e : exn)
  | Suspend (k : pc).

Definition and_then (st0 : state) (r : result state) (k : state -> state * ctl)
  : state * ctl :=
  match r with
  | Ok st => k st
  | Raise e => (st0, Throw e)
  end.

(** Lines 168-174.  The coroutines are popped from [self.tasks] and
    [asyncio.wait] wraps them in tasks, which are scheduled and have not
    run yet when [get_blob] suspends.  Task exceptions are stored in the
    tasks; [asyncio.wait] does not raise them. *)
Definition launch_tasks (st : state) : state * ctl :=
  match tasks st with
  | [] => (st, Suspend L173)
  | _ => (set_tasks [] (set_scheduled (scheduled st ++ rev (tasks st)) st), Suspend L172)
  end.

(** Lines 159-164, once the lock is free. *)
Definition after_lock (st : state) : state * ctl :=
  let st1 := set_lock true st in
  let st2 := set_has_peers false st1 in
  let st3 := set_lock false st2 in
  and_then st3 (_update_requests st3) launch_tasks.

(** One pass of the [while] loop, from its test on line 153. *)
Definition loop_head (st : state) : state * ctl :=
  match current_blob st with
  | None => (st, Throw AttributeError)
  | Some b =>
      if get_is_verified b st then (st, Return b)                    (* line 177 *)
      else if negb (has_peers st) && bool_decide (connections st ≠ ∅) then
        and_then st (_update_requests st) launch_tasks                (* line 155 *)
      else if has_peers st then
        let st1 := set_has_peers false st in                         (* line 157 *)
        and_then st1 (_update_requests st1)
          (fun st2 => if lock st2 then (st2, Suspend L159) else after_lock st2)
      else if get_is_verified b st then (st, Return b)               (* line 166 *)
      else launch_tasks st
  end.

(** Lines 142-151, once the lock is free. *)
Definition enter (h : string) (length : option Z) (st : state) : state * ctl :=
  let st1 := set_lock true st in
  let st2 := set_current_blob (Some (blob_manager_get_blob h length)) st1 in
  let st3 := set_lock false st2 in
  match current_blob st3 with
  | None => (st3, Throw AttributeError)
  | Some b =>
      if get_is_verified b st3 then (st3, Return b)                  (* line 149 *)
      else and_then st3 (_update_requests st3) loop_head
  end.

(** The call itself: it runs up to the first suspension.
    [asyncio.Lock.acquire] returns without suspending when the lock is
    free and suspends the caller when it is held. *)
Definition get_blob (h : string) (length : option Z) (st : state) : state * ctl :=
  if lock st then (st, Suspend (L142 h length)) else enter h length st.

(** A cancellation requested for the driving task is delivered at the point
    where the task is suspended. *)
Definition cancel_requested (st : state) : bool :=
  match download_task st with Pending true => true | _ => false end.

(** Resuming [get_blob] at the place where it was suspended. *)
Definition resume (k : pc) (st : state) : state * ctl :=
  if cancel_requested st then (st, Throw CancelledError)
  else
    match k with
    | L142 h length => if lock st then (st, Suspend k) else enter h length st
    | L159 => if lock st then (st, Suspend k) else after_lock st
    | L172 => (st, Suspend L173)
    | L173 =>
        match current_blob st with
        | None => (st, Throw AttributeError)
        | Some b =>
            if get_is_verified b st then (st, Return b)              (* line 176 *)
            else loop_head st
        end
    end.

(** ** The other tasks

    What can happen to the shared state while [get_blob] is suspended: the
    accumulation task adds a connected peer, a fetch task sees its request
    time out, the chunk store verifies a chunk, the owner calls [stop], the
    next scheduled fetch task runs its first step.  The timeouts and
    connections are not tied to the tasks that are in flight and [get_blob]
    may be resumed after any batch of events, so every interleaving of the
    real program is among the schedules. *)
Inductive event :=
  | Connected (p : peer)
  | RequestTimedOut (p : peer)
  | BlobVerified (h : string)
  | Stop
  | FetchStarted.

#[global] Instance event_eq_dec : EqDecision event.
Proof. solve_decision. Defined.

(** The first step of the next scheduled fetch task. *)
Definition start_next (st : state) : state :=
  match scheduled st with
  | [] => st
  | p :: rest => set_scheduled rest (_request_blob_start st p)
  end.

Definition env_step (st : state) (e : event) : state :=
  match e with
  | Connected p => default st (_accumulate_connections p true st)
  | RequestTimedOut p => default st (snd <$> _request_blob p (Raise TimeoutError) st)
  | BlobVerified h => set_verified (verified st ∪ {[h]}) st
  | Stop => stop st
  | FetchStarted => start_next st
  end.

(** The first steps of all the fetch tasks still scheduled.  The event loop
    runs its callbacks in the order in which they were scheduled, and the
    wake-up of a task that waits in [asyncio.wait] is scheduled only when a
    fetch task completes or the waiting task is cancelled: every fetch
    task handed to [asyncio.wait] has run its first step before [get_blob]
    is resumed. *)
Definition start_scheduled (st : state) : state :=
  set_scheduled [] (foldl _request_blob_start st (scheduled st)).

Definition env_steps (st : state) (es : list event) : state :=
  foldl env_step st es.

Inductive outcome :=
  | Returned (b : BlobFile)
  | Raised (e : exn)
  | Blocked (k : pc).

(** Running a configuration against a schedule: one batch of events per
    suspension; the fetch tasks that are still scheduled at the end of a
    batch run their first step before [get_blob] is resumed, and also when
    no batch is left and [get_blob] stays suspended. *)
Fixpoint run (sched : list (list event)) (c : state * ctl) : outcome * state :=
  match c with
  | (st, Return b) => (Returned b, st)
  | (st, Throw e) => (Raised e, st)
  | (st, Suspend k) =>
      match sched with
      | [] => (Blocked k, start_scheduled st)
      | es :: sched' => run sched' (resume k (start_scheduled (env_steps st es)))
      end
  end.

Definition get_blob_run (sched : list (list event)) (h : string) (length : option Z)
  (st : state) : outcome * state :=
  run sched (get_blob h length st).

(** The assembler asks for one chunk after the other, one call of
    [get_blob] at a time; other tasks may run before each call.  A call
    that raised or is still suspended ends the sequence, so the states a
    sequence ends in include those in the middle of an acquisition. *)
Record acquisition := mkAcq {
  acq_before : list event;
  acq_hash : string;
  acq_length : option Z;
  acq_sched : list (list event)
}.

Fixpoint session (acqs : list acquisition) (st : state) : state :=
  match acqs with
  | [] => st
  | a :: rest =>
      match get_blob_run (acq_sched a) (acq_hash a) (acq_length a)
                         (env_steps st (acq_before a)) with
      | (Returned _, st') => session rest st'
      | (_, st') => st'
      end
  end.

(** Requests issued so far, as (peer, hash) pairs. *)
Definition request_of (c : call) : option (peer * string) :=
  match c with
  | RequestBlobs p (Some b) => Some (p, blob_hash b)
  | _ => None
  end.

Definition requested (st : state) : list (peer * string) :=
  omap request_of (calls st).

Definition request_eq_dec (x y : peer * string) : {x = y} + {x ≠ y} :=
  decide (x = y).

Definition disconnect_of (c : call) : option peer :=
  match c with DisconnectTcp p => Some p | _ => None end.

Definition disconnected (st : state) : list peer :=
  omap disconnect_of (calls st).

(** ** [download] and [_download] (lines 200-217) *)

Definition download (st : state) : state :=
  set_download_task (Pending false) st.

(** [try: body finally: fin] *)
Definition try_finally {A : Type} (body : state -> result A * state)
  (fin : state -> state) (st : state) : result A * state :=
  let (r, st1) := body st in (r, fin st1).

Section Download.

(** The assembler, the storage update and the callback are collaborators:
    each maps the state to an outcome and a new state. *)
Variable assemble_decrypted_stream : state -> result unit * state.
Variable change_file_status : state -> result unit * state.
Variable finished_callback : state -> result unit * state.

(** Lines 203-211; the call of [self.finished_callback()] on line 211 is
    recorded in the trace before the callback runs. *)
Definition _download_body (st : state) : result unit * state :=
  match assemble_decrypted_stream st with
  | (Ok _, st1) =>
      match change_file_status st1 with
      | (Ok _, st2) => finished_callback (add_calls [FinishedCallback] st2)
      | (Raise e, st2) => (Raise e, st2)
      end
  | (Raise e, st1) => (Raise e, st1)
  end.

Definition _download (st : state) : result unit * state :=
  let st1 := set_accumulator_task (Pending false) st in
  try_finally _download_body stop st1.

End Download.

End Downloader.

Module Junction.

(** A registered async generator is known by identity. *)
Definition gen := nat.
Definition item := nat.

(** [maxsize = 0] is the unbounded queue that [__init__] creates when none
    is passed. *)
Record junction := mkJunction {
  queue : list item;
  maxsize : nat;
  handles : list gen;
  running_iterators : gmap gen bool
}.

(** [AsyncGeneratorJunction.__init__] *)
Definition new (maxsize : nat) : junction :=
  mkJunction [] maxsize [] ∅.

(** [any(self.running_iterators.values())] *)
Definition running (J : junction) : bool :=
  existsb id (map snd (map_to_list (running_iterators J))).

(** [add_generator]: the entry is set and the [iterate] task is scheduled. *)
Definition add_generator (g : gen) (J : junction) : junction :=
  mkJunction (queue J) (maxsize J) (handles J ++ [g]) (<[g := true]> (running_iterators J)).

(** [asyncio.Queue.put_nowait] *)
Definition put_nowait (x : item) (J : junction) : result junction :=
  if bool_decide (0 < maxsize J) && bool_decide (maxsize J ≤ length (queue J))
  then Raise (OtherError "QueueFull")
  else Ok (mkJunction (queue J ++ [x]) (maxsize J) (handles J) (running_iterators J)).

(** What the generator does when [iterate] asks it for the next item. *)
Inductive gen_step :=
  | Yields (x : item)
  | Exhausted
  | Raises (e : exn).

(** One turn of [iterate] (lines 39-42): the new state and, when the task
    ends with this turn, its result. *)
Definition iterate (g : gen) (s : gen_step) (J : junction)
  : junction * option (result unit) :=
  match s with
  | Yields x =>
      match put_nowait x J with
      | Ok J' => (J', None)
      | Raise e => (J, Some (Raise e))
      end
  | Exhausted =>
      (mkJunction (queue J) (maxsize J) (handles J) (<[g := false]> (running_iterators J)),
       Some (Ok tt))
  | Raises e => (J, Some (Raise e))
  end.

(** The whole task for a generator that behaves as the list of steps says;
    the task stops at its first result. *)
Fixpoint iterate_all (g : gen) (steps : list gen_step) (J : junction)
  : junction * option (result unit) :=
  match steps with
  | [] => (J, None)
  | s :: rest =>
      match iterate g s J with
      | (J', None) => iterate_all g rest J'
      | (J', Some r) => (J', Some r)
      end
  end.

Inductive next :=
  | Item (x : item) (J : junction)
  | Awaiting
  | Raising (e : exn).

(** [__anext__] (lines 50-54); [queue.get()] returns at once when the queue
    is not empty and suspends otherwise. *)
Definition __anext__ (J : junction) : next :=
  if running J then
    match queue J with
    | x :: q => Item x (mkJunction q (maxsize J) (handles J) (running_iterators J))
    | [] => Awaiting
    end
  else Raising StopAsyncIteration.

(** [async for item in junction] taking at most [n] items: [__aiter__]
    returns the junction itself, every turn calls [__anext__], and the loop
    stops at the first turn that does not hand out an item. *)
Fixpoint anext_many (n : nat) (J : junction) : list item * junction :=
  match n with
  | 0 => ([], J)
  | S n' =>
      match __anext__ J with
      | Item x J' => let (xs, J'') := anext_many n' J' in (x :: xs, J'')
      | _ => ([], J)
      end
  end.

End Junction.

Module SinglePeer.

(** [SinglePeerStreamDownloader] (lines 65-92): the one peer, the
    verification state of the chunk store and the calls made to the peer. *)
Record state := mkState {
  peer : Downloader.peer;
  verified : gset string;
  calls : list Downloader.call
}.

Definition add_call (c : Downloader.call) (st : state) : state :=
  mkState (peer st) (verified st) (calls st ++ [c]).

Definition get_is_verified (b : Downloader.BlobFile) (st : state) : bool :=
  bool_decide (Downloader.blob_hash b ∈ verified st).

(** The chunk store verifies these hashes while a request is awaited. *)
Definition verify_all (hs : list string) (st : state) : state :=
  mkState (peer st) (verified st ∪ list_to_set hs) (calls st).

Inductive ctl :=
  | Return (b : Downloader.BlobFile)
  | AwaitRequest (b : Downloader.BlobFile).

(** [get_blob] (lines 77-81) up to its suspension in
    [self.peer.request_blobs([blob], ...)]. *)
Definition get_blob (blob_hash : string) (length : option Z) (st : state)
  : state * ctl :=
  let blob := Downloader.blob_manager_get_blob blob_hash length in
  if negb (get_is_verified blob st)
  then (add_call (Downloader.RequestBlobs (peer st) (Some blob)) st, AwaitRequest blob)
  else (st, Return blob).

(** The rest of [get_blob], given the outcome of the awaited request: an
    exception of the request leaves [get_blob] as it is, otherwise line 81
    returns the handle. *)
Definition get_blob_resume (blob : Downloader.BlobFile) (outcome : result unit)
  (st : state) : result Downloader.BlobFile * state :=
  match outcome with
  | Ok _ => (Ok blob, st)
  | Raise e => (Raise e, st)
  end.

(** A whole call: [during] are the hashes verified while the request is
    awaited, [outcome] is what the request does. *)
Definition get_blob_run (blob_hash : string) (length : option Z)
  (during : list string) (outcome : result unit) (st : state)
  : result Downloader.BlobFile * state :=
  match get_blob blob_hash length st with
  | (st1, Return b) => (Ok b, st1)
  | (st1, AwaitRequest b) => get_blob_resume b outcome (verify_all during st1)
  end.

(** [self.stop()] resolves to [BaseStreamDownloader.stop] (lines 61-62):
    [SinglePeerStreamDownloader] does not define [stop]. *)
Definition stop (st : state) : result unit * state :=
  (Raise (OtherError "NotImplementedError"), st).

(** [try: body finally: fin], where [fin] may raise: an exception of [fin]
    replaces the outcome of [body]. *)
Definition try_finally {A : Type} (body : state -> result A * state)
  (fin : state -> result unit * state) (st : state) : result A * state :=
  let (r, st1) := body st in
  match fin st1 with
  | (Ok _, st2) => (r, st2)
  | (Raise e, st2) => (Raise e, st2)
  end.

Section Download.

(** The assembler and the callback are collaborators. *)
Variable assemble_decrypted_stream : state -> result unit * state.
Variable finished_callback : state -> result unit * state.

(** Lines 85-89 *)
Definition download_body (st : state) : result unit * state :=
  match assemble_decrypted_stream st with
  | (Ok _, st1) => finished_callback st1
  | (Raise e, st1) => (Raise e, st1)
  end.

(** Lines 91-92 *)
Definition download_finally (st : state) : result unit * state :=
  stop (add_call (Downloader.DisconnectTcp (peer st)) st).

(** [download] (lines 83-92) *)
Definition download (st : state) : result unit * state :=
  try_finally download_body download_finally st.

End Download.

End SinglePeer.

(** * Predicates used in the proofs *)

Section Predicates.
Import Downloader.

(** The state between the two task checks and the loop of [stop]. *)
Definition stop_tasks (st : state) : task * task :=
  (if task_truthy (accumulator_task st)
      && negb (task_done (accumulator_task st) || task_cancelled (accumulator_task st))
   then task_cancel (accumulator_task st) else accumulator_task st,
   if task_truthy (download_task st)
      && negb (task_done (download_task st) || task_cancelled (download_task st))
   then task_cancel (download_task st) else download_task st).

(** Modelled from the spec: the cleanup runs before the outcome is reported
    upward.  In the trace of calls, every invocation of the finished
    callback, by which a successful download is reported to the owner, comes
    after a stop of the peer finder, the first call of the cleanup. *)
Definition cleanup_before_report (cs : list call) : Prop :=
  ∀ i, cs !! i = Some FinishedCallback →
       ∃ j, j < i ∧ cs !! j = Some PeerFinderStop.

(** What [_update_requests] may change: the ledger and the coroutine list. *)
Definition same_pool (st st' : state) : Prop :=
  connections st' = connections st
  ∧ has_peers st' = has_peers st
  ∧ current_blob st' = current_blob st
  ∧ lock st' = lock st
  ∧ accumulator_task st' = accumulator_task st
  ∧ download_task st' = download_task st
  ∧ verified st' = verified st
  ∧ calls st' = calls st.

(** The peers of [l] that the ledger entry does not hold yet. *)
Definition unasked (led : list peer) (l : list peer) : list peer :=
  filter (λ p, p ∉ led) l.

(** The requests of the fetch tasks that are scheduled and of the
    coroutines created for the current chunk and not yet handed to
    [asyncio.wait]. *)
Definition pending (st : state) : list (peer * string) :=
  match current_blob st with
  | Some b => map (λ p, (p, blob_hash b)) (scheduled st ++ tasks st)
  | None => []
  end.

(** No request is created twice, every request created is recorded in the
    ledger entry of its chunk, and no entry holds a peer twice. *)
Definition ledger_ok (st : state) : Prop :=
  NoDup (requested st ++ pending st)
  ∧ (∀ p h, (p, h) ∈ requested st ++ pending st → p ∈ ledger st h)
  ∧ (∀ h, NoDup (ledger st h)).

(** What one segment that starts at [st] with current chunk [b]
    guarantees about the configuration [r] it ends in. *)
Definition seg_post (b : BlobFile) (st : state) (r : state * ctl) : Prop :=
  current_blob (fst r) = Some b
  ∧ verified (fst r) = verified st
  ∧ (ledger_ok st → ledger_ok (fst r))
  ∧ (lock st = false → lock (fst r) = false)
  ∧ match snd r with
    | Return b' => b' = b ∧ get_is_verified b st = true ∧ tasks (fst r) = tasks st
    | Throw _ => False
    | Suspend (L142 _ _) => False
    | Suspend L159 => lock st = true
    | Suspend _ => tasks (fst r) = []
    end.

(** [enter] sets the current chunk itself, so it starts from a state
    without leftover coroutines and without scheduled tasks. *)
Definition enter_post (b : BlobFile) (st : state) (r : state * ctl) : Prop :=
  current_blob (fst r) = Some b
  ∧ verified (fst r) = verified st
  ∧ (tasks st = [] → scheduled st = [] → ledger_ok st → ledger_ok (fst r))
  ∧ lock (fst r) = false
  ∧ match snd r with
    | Return b' => b' = b ∧ get_is_verified b st = true
                   ∧ fst r = set_lock false (set_current_blob (Some b) st)
    | Suspend L172 | Suspend L173 => tasks (fst r) = []
    | _ => False
    end.

(** What holds of a configuration of the acquisition of [b], whatever
    state it started from. *)
Definition acquiring (b : BlobFile) (c : state * ctl) : Prop :=
  match snd c with
  | Return b' =>
      b' = b ∧ get_is_verified b (fst c) = true ∧ current_blob (fst c) = Some b
  | Throw e => e = CancelledError
  | Suspend (L142 h len) => blob_manager_get_blob h len = b
  | Suspend _ => current_blob (fst c) = Some b
  end.

(** The invariant of the states between two segments. *)
Definition Inv (st : state) : Prop :=
  lock st = false ∧ tasks st = [] ∧ ledger_ok st.

(** A segment that does not end in a suspension schedules no task. *)
Definition settled (st : state) (r : state * ctl) : Prop :=
  (∃ k, snd r = Suspend k) ∨ scheduled (fst r) = scheduled st.

(** The invariant of the states in which no fetch task is waiting for
    its first step: the states in which [get_blob] is called. *)
Definition Idle (st : state) : Prop :=
  Inv st ∧ scheduled st = [].

(** The states in which [get_blob] can be called: a new downloader with
    any two task attributes, a sequence of acquisitions, then any events. *)
Definition reached (a d : task) (acqs : list acquisition) (before : list event)
  : state :=
  env_steps (session acqs (set_accumulator_task a (set_download_task d init))) before.

(** What holds of a configuration of the acquisition of [b] that started
    from a state satisfying the invariant. *)
Definition good (b : BlobFile) (c : state * ctl) : Prop :=
  Inv (fst c)
  ∧ match snd c with
    | Return b' =>
        b' = b ∧ get_is_verified b (fst c) = true ∧ current_blob (fst c) = Some b
    | Throw e => e = CancelledError
    | Suspend L172 | Suspend L173 => current_blob (fst c) = Some b
    | Suspend _ => False
    end.

End Predicates.

(** * Predicates for the further properties *)

Section MorePredicates.
Import Downloader.

(** Every peer recorded in a ledger entry has a request, issued or about to
    be issued, for that chunk. *)
Definition ledger_sound (st : state) : Prop :=
  ∀ p h, p ∈ ledger st h → (p, h) ∈ requested st ++ pending st.


(** The attributes that [get_blob] itself leaves alone. *)
Definition untouched (st st' : state) : Prop :=
  connections st' = connections st
  ∧ verified st' = verified st
  ∧ accumulator_task st' = accumulator_task st
  ∧ download_task st' = download_task st.

(** Ledger entries only grow, at their end. *)
Definition ledger_grows (st st' : state) : Prop :=
  ∀ h, ledger st h `prefix_of` ledger st' h.

(** While the current chunk is [h], only the entry of [h] changes and only
    requests for [h] are created. *)
Definition only_for (h : string) (st st' : state) : Prop :=
  current_blob st = Some {| blob_hash := h |} →
  current_blob st' = Some {| blob_hash := h |}
  ∧ (∀ h', h' ≠ h → ledger st' h' = ledger st h')
  ∧ (∀ x, x ∈ requested st' ++ pending st' →
          x ∈ requested st ++ pending st ∨ x.2 = h).



Definition not_stop (e : event) : bool :=
  match e with Stop => false | _ => true end.

Definition any_event (e : event) : bool := true.

Definition is_stop (e : event) : bool :=
  match e with Stop => true | _ => false end.

(** A segment asks only peers of the pool, which it does not change. *)
Definition pool_only (st st' : state) : Prop :=
  connections st' = connections st
  ∧ ∀ x, x ∈ requested st' ++ pending st' →
         x ∈ requested st ++ pending st ∨ x.1 ∈ connections st.

(** A step keeps an invariant. *)
Definition keeps (P : state → Prop) (st st' : state) : Prop := P st → P st'.

(** All events of an acquisition satisfy [allowed]. *)
Definition acq_allowed (allowed : event → bool) (a : acquisition) : bool :=
  forallb allowed (acq_before a) && forallb (forallb allowed) (acq_sched a).

End MorePredicates.

(** * Properties of the generator junction *)

Section JunctionFacts.
Import Junction.

Lemma running_true (J : junction) :
  running J = true ↔ ∃ g, running_iterators J !! g = Some true.
Proof.
  unfold running. rewrite existsb_exists. split.
  - intros [b [Hin Hb]]. apply list_elem_of_In, list_elem_of_fmap in Hin.
    destruct Hin as [[g b'] [-> Hin]]. simpl in Hb. unfold id in Hb. subst b'.
    exists g. by apply elem_of_map_to_list.
  - intros [g Hg]. exists true. split; [|done].
    apply list_elem_of_In, list_elem_of_fmap. exists (g, true). split; [done|].
    by apply elem_of_map_to_list.
Qed.

Lemma running_false (J : junction) :
  running J = false ↔ ∀ g, running_iterators J !! g ≠ Some true.
Proof.
  split.
  - intros Hr g Hg. assert (running J = true) by (apply running_true; eauto).
    congruence.
  - intros Hall. destruct (running J) eqn:Hr; [|done].
    apply running_true in Hr as [g Hg]. by destruct (Hall g).
Qed.

Lemma anext_stops_iff (J : junction) :
  __anext__ J = Raising StopAsyncIteration ↔ running J = false.
Proof.
  unfold __anext__. destruct (running J); [|done].
  split; [|done]. by destruct (queue J).
Qed.

Lemma running_add_generator (g : gen) (J : junction) :
  running (add_generator g J) = true.
Proof. apply running_true. exists g. simpl. apply lookup_insert_eq. Qed.

End JunctionFacts.

Section JunctionClaims.
Import Junction.

(** C8: [__anext__] raises [StopAsyncIteration] exactly when no registered
    generator is marked running, it raises nothing else, and after
    [add_generator] the junction is running again whatever the flags of the
    generators registered before, so [__anext__] does not signal
    completion. *)
Theorem junction_completes_only_when_no_source_active :
  (∀ J, __anext__ J = Raising StopAsyncIteration
        ↔ ∀ g, running_iterators J !! g ≠ Some true)
  ∧ (∀ J e, __anext__ J = Raising e → e = StopAsyncIteration)
  ∧ (∀ g J, running (add_generator g J) = true
            ∧ __anext__ (add_generator g J) ≠ Raising StopAsyncIteration).
Proof.
  split; [|split].
  - intros J. rewrite anext_stops_iff. apply running_false.
  - intros J e. unfold __anext__.
    destruct (running J); [destruct (queue J)|]; congruence.
  - intros g J. split; [apply running_add_generator|].
    rewrite anext_stops_iff, running_add_generator. done.
Qed.

(** C9 (the code does not do this): a generator that yields one item and
    then raises leaves its entry in [running_iterators] set; the [iterate]
    task ends with the exception, the junction still counts as running and
    [__anext__], after handing out the queued item, waits on the queue
    instead of signalling completion. *)
Theorem junction_raising_source_stays_active :
  let J1 := fst (iterate_all 0 [Yields 7; Raises (OtherError "boom")]
                             (add_generator 0 (new 0))) in
  snd (iterate_all 0 [Yields 7; Raises (OtherError "boom")]
                   (add_generator 0 (new 0))) = Some (Raise (OtherError "boom"))
  ∧ running_iterators J1 !! 0 = Some true
  ∧ running J1 = true
  ∧ __anext__ J1 = Item 7 (mkJunction [] 0 [0] (running_iterators J1))
  ∧ __anext__ (mkJunction [] 0 [0] (running_iterators J1)) = Awaiting.
Proof. vm_compute. done. Qed.

(** C10: when no registered generator is marked running, [__anext__] raises
    [StopAsyncIteration] at once; it neither waits nor hands out an item,
    whatever the queue holds. *)
Theorem anext_stops_whatever_the_queue_holds (J : junction) :
  (∀ g, running_iterators J !! g ≠ Some true) →
  __anext__ J = Raising StopAsyncIteration.
Proof. intros H. apply anext_stops_iff, running_false, H. Qed.

Lemma anext_stops_whatever_the_queue_holds_witness :
  queue (fst (iterate_all 0 [Yields 7; Yields 8; Exhausted] (add_generator 0 (new 0))))
    = [7; 8]
  ∧ __anext__ (fst (iterate_all 0 [Yields 7; Yields 8; Exhausted]
                                (add_generator 0 (new 0))))
    = Raising StopAsyncIteration.
Proof.
  split; [reflexivity|].
  apply anext_stops_whatever_the_queue_holds.
  intros g. apply running_false. vm_compute. reflexivity.
Defined.

Lemma junction_completes_only_when_no_source_active_witness :
  __anext__ (fst (iterate_all 0 [Yields 7; Exhausted] (add_generator 0 (new 0))))
  = Raising StopAsyncIteration
  ∧ __anext__ (add_generator 1
                 (fst (iterate_all 0 [Yields 7; Exhausted] (add_generator 0 (new 0)))))
    ≠ Raising StopAsyncIteration.
Proof.
  destruct junction_completes_only_when_no_source_active as (_ & _ & Hadd).
  split; [vm_compute; reflexivity|]. apply Hadd.
Defined.

End JunctionClaims.

(** * Properties of the downloader: teardown *)

Section Teardown.
Import Downloader.

Lemma disconnect_all_calls (l : list peer) (st : state) :
  calls (foldl disconnect_one st l) = calls st ++ map DisconnectTcp l.
Proof.
  revert st. induction l as [|p l IH]; intros st; simpl.
  - by rewrite app_nil_r.
  - rewrite IH. simpl. by rewrite <- app_assoc.
Qed.

Lemma disconnect_all_connections (l : list peer) (st : state) :
  connections (foldl disconnect_one st l) = connections st ∖ list_to_set l.
Proof.
  revert st. induction l as [|p l IH]; intros st; simpl.
  - set_solver.
  - rewrite IH. simpl. set_solver.
Qed.

Lemma disconnect_all_frame (l : list peer) (st : state) :
  has_peers (foldl disconnect_one st l) = has_peers st
  ∧ tasks (foldl disconnect_one st l) = tasks st
  ∧ requests (foldl disconnect_one st l) = requests st
  ∧ current_blob (foldl disconnect_one st l) = current_blob st
  ∧ lock (foldl disconnect_one st l) = lock st
  ∧ accumulator_task (foldl disconnect_one st l) = accumulator_task st
  ∧ download_task (foldl disconnect_one st l) = download_task st
  ∧ verified (foldl disconnect_one st l) = verified st.
Proof.
  revert st. induction l as [|p l IH]; intros st; simpl; [done|].
  destruct (IH (disconnect_one st p)) as (-> & -> & -> & -> & -> & -> & -> & ->).
  done.
Qed.

Lemma stop_calls (st : state) :
  calls (stop st)
  = calls st ++ PeerFinderStop :: map DisconnectTcp (elements (connections st)).
Proof.
  unfold stop. rewrite disconnect_all_calls.
  destruct (task_truthy (accumulator_task st) && _);
    destruct (task_truthy (download_task _) && _); simpl;
    by rewrite <- app_assoc.
Qed.

Lemma stop_connections (st : state) : connections (stop st) = ∅.
Proof.
  unfold stop. rewrite disconnect_all_connections.
  apply set_eq. intros p. rewrite elem_of_difference, elem_of_list_to_set, elem_of_elements.
  set_solver.
Qed.

Lemma stop_frame (st : state) :
  has_peers (stop st) = has_peers st
  ∧ tasks (stop st) = tasks st
  ∧ requests (stop st) = requests st
  ∧ current_blob (stop st) = current_blob st
  ∧ lock (stop st) = lock st
  ∧ verified (stop st) = verified st.
Proof.
  unfold stop.
  match goal with |- context [foldl disconnect_one ?s ?l] =>
    destruct (disconnect_all_frame l s) as (-> & -> & -> & -> & -> & _ & _ & ->) end.
  destruct (task_truthy (accumulator_task st) && _);
    destruct (task_truthy (download_task _) && _); done.
Qed.

Lemma stop_task_fields (st : state) :
  (accumulator_task (stop st), download_task (stop st)) = stop_tasks st.
Proof.
  unfold stop, stop_tasks.
  match goal with |- context [foldl disconnect_one ?s ?l] =>
    destruct (disconnect_all_frame l s) as (_ & _ & _ & _ & _ & -> & -> & _) end.
  destruct (task_truthy (accumulator_task st) && _);
    destruct (task_truthy (download_task _) && _); done.
Qed.

Lemma stop_tasks_not_running (st : state) :
  accumulator_task (stop st) ≠ Pending false
  ∧ download_task (stop st) ≠ Pending false.
Proof.
  pose proof (stop_task_fields st) as H. unfold stop_tasks in H.
  injection H as -> ->.
  destruct (accumulator_task st) as [|[]| |], (download_task st) as [|[]| |];
    simpl; split; congruence.
Qed.

Lemma disconnected_app (st : state) (cs : list call) :
  disconnected (add_calls cs st) = disconnected st ++ omap disconnect_of cs.
Proof. unfold disconnected. simpl. apply omap_app. Qed.

Lemma omap_disconnect_map (l : list peer) :
  omap disconnect_of (map DisconnectTcp l) = l.
Proof. induction l as [|p l IH]; [done|]. cbn. by rewrite IH. Qed.

Lemma stop_disconnected (st : state) :
  disconnected (stop st) = disconnected st ++ elements (connections st).
Proof.
  unfold disconnected. rewrite stop_calls, omap_app. simpl.
  by rewrite omap_disconnect_map.
Qed.

Lemma stop_again (st : state) :
  calls (stop (stop st)) = calls (stop st) ++ [PeerFinderStop].
Proof. by rewrite (stop_calls (stop st)), stop_connections, elements_empty. Qed.

Lemma iter_stop_connections (n : nat) (st : state) :
  connections (Nat.iter (S n) stop st) = ∅.
Proof. simpl. apply stop_connections. Qed.

Lemma iter_stop_disconnected (n : nat) (st : state) :
  disconnected (Nat.iter (S n) stop st) = disconnected st ++ elements (connections st).
Proof.
  induction n as [|n IH].
  - apply stop_disconnected.
  - change (Nat.iter (S (S n)) stop st) with (stop (Nat.iter (S n) stop st)).
    by rewrite stop_disconnected, iter_stop_connections, elements_empty, app_nil_r.
Qed.

End Teardown.

Section TeardownClaims.
Import Downloader.

(** C6, as the spec has it, fails for a download that succeeds: the
    assembly and the storage update return, [finished_callback] is invoked
    on line 211 inside the guarded block, and only then does the [finally]
    clause run [stop]: the success is reported while the two peers are
    still connected and before the peer finder is stopped. *)
Lemma download_reports_success_before_cleanup :
  fst (_download (λ st, (Ok tt, st)) (λ st, (Ok tt, st)) (λ st, (Ok tt, st))
         (download (env_steps init [Connected 1; Connected 2])))
  = Ok tt
  ∧ calls (snd (_download (λ st, (Ok tt, st)) (λ st, (Ok tt, st)) (λ st, (Ok tt, st))
                  (download (env_steps init [Connected 1; Connected 2]))))
    = [FinishedCallback; PeerFinderStop; DisconnectTcp 2; DisconnectTcp 1]
  ∧ ¬ cleanup_before_report
        (calls (snd (_download (λ st, (Ok tt, st)) (λ st, (Ok tt, st))
                       (λ st, (Ok tt, st))
                       (download (env_steps init [Connected 1; Connected 2]))))).
Proof.
  assert (calls (snd (_download (λ st, (Ok tt, st)) (λ st, (Ok tt, st))
                        (λ st, (Ok tt, st))
                        (download (env_steps init [Connected 1; Connected 2]))))
          = [FinishedCallback; PeerFinderStop; DisconnectTcp 2; DisconnectTcp 1])
    as Hc by (vm_compute; reflexivity).
  split; [vm_compute; reflexivity|]. split; [exact Hc|].
  rewrite Hc. intros H. destruct (H 0 eq_refl) as (j & Hj & _). lia.
Qed.

(** C6 (amended): whatever the assembler, the storage update and the
    callback do (return or raise, [CancelledError] included), [stop] runs
    exactly once per run of [_download], in its [finally] clause: on the
    state that the guarded block left and before [_download] finishes with
    the outcome of that block.  The accumulation task is then no longer
    running uncancelled, the peer finder is stopped exactly once more,
    every peer of the pool is disconnected once and the pool is empty.  An
    exception or a cancellation of the assembly or of the storage update
    reaches the caller only after this cleanup, and [finished_callback] is
    not invoked.  On success [finished_callback] is invoked before the
    cleanup, on the state that the storage update left.  The cleanup also
    requests the cancellation of the driving task when the guarded block
    left it running. *)
Theorem download_always_stops_once
  (assemble_decrypted_stream change_file_status finished_callback
     : state → result unit * state) (st : state) :
  let st1 := set_accumulator_task (Pending false) st in
  let body := _download_body assemble_decrypted_stream change_file_status
                finished_callback st1 in
  let final := _download assemble_decrypted_stream change_file_status
                 finished_callback st in
  (fst final = fst body
   ∧ snd final = stop (snd body)
   ∧ calls (snd final)
     = calls (snd body)
       ++ PeerFinderStop :: map DisconnectTcp (elements (connections (snd body)))
   ∧ count_occ call_eq_dec (calls (snd final)) PeerFinderStop
     = S (count_occ call_eq_dec (calls (snd body)) PeerFinderStop)
   ∧ connections (snd final) = ∅
   ∧ accumulator_task (snd final) ≠ Pending false)
  ∧ (∀ e s1, assemble_decrypted_stream st1 = (Raise e, s1) →
             final = (Raise e, stop s1))
  ∧ (∀ u e s1 s2,
       assemble_decrypted_stream st1 = (Ok u, s1) →
       change_file_status s1 = (Raise e, s2) →
       final = (Raise e, stop s2))
  ∧ (∀ u v s1 s2,
       assemble_decrypted_stream st1 = (Ok u, s1) →
       change_file_status s1 = (Ok v, s2) →
       final = (fst (finished_callback (add_calls [FinishedCallback] s2)),
                stop (snd (finished_callback (add_calls [FinishedCallback] s2)))))
  ∧ (download_task (snd body) = Pending false →
     download_task (snd final) = Pending true).
Proof.
  intros st1 body final.
  assert (final = (fst body, stop (snd body))) as Hfinal.
  { subst final. unfold _download, try_finally. fold st1. fold body.
    by destruct body. }
  split_and!.
  - by rewrite Hfinal.
  - by rewrite Hfinal.
  - rewrite Hfinal. apply stop_calls.
  - rewrite Hfinal. simpl. rewrite stop_calls, count_occ_app. simpl.
    destruct (call_eq_dec PeerFinderStop PeerFinderStop); [|done].
    assert (count_occ call_eq_dec
              (map DisconnectTcp (elements (connections (snd body)))) PeerFinderStop = 0)
      as ->; [|lia].
    apply count_occ_not_In. intros Hin. apply in_map_iff in Hin as (p & Hp & _).
    discriminate.
  - rewrite Hfinal. apply stop_connections.
  - rewrite Hfinal. apply stop_tasks_not_running.
  - intros e s1 Ha. rewrite Hfinal. subst body. unfold _download_body.
    by rewrite Ha.
  - intros u e s1 s2 Ha Hc. rewrite Hfinal. subst body. unfold _download_body.
    by rewrite Ha, Hc.
  - intros u v s1 s2 Ha Hc. rewrite Hfinal. subst body. unfold _download_body.
    by rewrite Ha, Hc.
  - intros Hd. rewrite Hfinal. simpl.
    pose proof (stop_task_fields (snd body)) as Hs. unfold stop_tasks in Hs.
    rewrite Hd in Hs. simpl in Hs. by injection Hs as _ ->.
Qed.

(** C7: any number of calls of [stop], from any state, empties the pool
    with the first call; the disconnect calls they make together are the
    members of the pool at the first call, each once, and every call
    after the first only stops the peer finder again.  [stop] has no
    raising path: its only partial operation, [set.pop], runs under the
    loop test. *)
Theorem stop_idempotent (st : state) (n : nat) :
  connections (Nat.iter (S n) stop st) = ∅
  ∧ disconnected (Nat.iter (S n) stop st)
    = disconnected st ++ elements (connections st)
  ∧ NoDup (elements (connections st))
  ∧ calls (Nat.iter (S n) stop st)
    = calls st ++ PeerFinderStop :: map DisconnectTcp (elements (connections st))
      ++ replicate n PeerFinderStop
  ∧ disconnected (stop (Nat.iter (S n) stop st))
    = disconnected (Nat.iter (S n) stop st).
Proof.
  split; [apply iter_stop_connections|].
  split; [apply iter_stop_disconnected|].
  split; [apply NoDup_elements|].
  split.
  - induction n as [|n IH].
    + simpl. by rewrite stop_calls, app_nil_r.
    + change (Nat.iter (S (S n)) stop st) with (stop (Nat.iter (S n) stop st)).
      rewrite stop_calls, iter_stop_connections, elements_empty, IH. simpl.
      rewrite (replicate_cons_app n). simpl.
      rewrite <- !app_assoc. simpl. by rewrite <- !app_assoc.
  - by rewrite stop_disconnected, iter_stop_connections, elements_empty, app_nil_r.
Qed.

Lemma download_always_stops_once_witness :
  _download (λ st, (Raise (OtherError "disk full"), env_steps st [Connected 1; Connected 2]))
    (λ st, (Ok tt, st)) (λ st, (Ok tt, st)) (download init)
  = (Raise (OtherError "disk full"),
     stop (env_steps (set_accumulator_task (Pending false) (download init))
             [Connected 1; Connected 2]))
  ∧ _download (λ st, (Ok tt, env_steps st [Connected 1; Connected 2]))
      (λ st, (Ok tt, st)) (λ st, (Ok tt, st)) (download init)
    = (fst ((λ st, (Ok tt, st))
              (add_calls [FinishedCallback]
                 (env_steps (set_accumulator_task (Pending false) (download init))
                    [Connected 1; Connected 2]))),
       stop (snd ((λ st : state, (@Ok unit tt, st))
                    (add_calls [FinishedCallback]
                       (env_steps (set_accumulator_task (Pending false) (download init))
                          [Connected 1; Connected 2])))))
  ∧ download_task
      (snd (_download (λ st, (Ok tt, env_steps st [Connected 1; Connected 2]))
              (λ st, (Ok tt, st)) (λ st, (Ok tt, st)) (download init)))
    = Pending true.
Proof.
  split_and!.
  - apply (download_always_stops_once
             (λ st, (Raise (OtherError "disk full"),
                     env_steps st [Connected 1; Connected 2]))
             (λ st, (Ok tt, st)) (λ st, (Ok tt, st)) (download init)).
    reflexivity.
  - apply (download_always_stops_once
             (λ st, (Ok tt, env_steps st [Connected 1; Connected 2]))
             (λ st, (Ok tt, st)) (λ st, (Ok tt, st)) (download init)) with tt tt
             (env_steps (set_accumulator_task (Pending false) (download init))
                [Connected 1; Connected 2]); reflexivity.
  - apply (download_always_stops_once
             (λ st, (Ok tt, env_steps st [Connected 1; Connected 2]))
             (λ st, (Ok tt, st)) (λ st, (Ok tt, st)) (download init)).
    vm_compute. reflexivity.
Defined.

Lemma stop_idempotent_witness :
  disconnected (Nat.iter 3 stop (env_steps init [Connected 1; Connected 2]))
  = [2; 1].
Proof.
  destruct (stop_idempotent (env_steps init [Connected 1; Connected 2]) 2)
    as (_ & Hd & _).
  rewrite Hd. vm_compute. reflexivity.
Defined.

End TeardownClaims.

(** * Properties of the downloader: dispatch and eviction *)

Section Dispatch.
Import Downloader.

Lemma same_pool_refl (st : state) : same_pool st st.
Proof. by repeat split. Qed.

Lemma same_pool_trans (st1 st2 st3 : state) :
  same_pool st1 st2 → same_pool st2 st3 → same_pool st1 st3.
Proof.
  intros (? & ? & ? & ? & ? & ? & ? & ?) (? & ? & ? & ? & ? & ? & ? & ?).
  repeat split; congruence.
Qed.

Lemma ledger_insert (st : state) (h h' : string) (l : list peer) :
  ledger (set_requests (<[h := l]> (requests st)) st) h'
  = if decide (h = h') then l else ledger st h'.
Proof.
  unfold ledger. simpl. rewrite lookup_insert.
  by destruct (decide (h = h')).
Qed.

Lemma ask_peer_spec (h : string) (st : state) (p : peer) :
  let new := if bool_decide (p ∈ ledger st h) then [] else [p] in
  same_pool st (ask_peer h st p)
  ∧ tasks (ask_peer h st p) = tasks st ++ new
  ∧ ledger (ask_peer h st p) h = ledger st h ++ new
  ∧ (∀ h', h' ≠ h → ledger (ask_peer h st p) h' = ledger st h').
Proof.
  unfold ask_peer. case_bool_decide as Hin; simpl.
  - rewrite !app_nil_r. repeat split; done.
  - repeat split.
    + unfold ledger at 1. simpl. by rewrite lookup_insert_eq.
    + intros h' Hne. unfold ledger at 1. simpl. by rewrite lookup_insert_ne.
Qed.

Lemma unasked_snoc_fresh (led l : list peer) (p : peer) :
  p ∉ l → unasked (led ++ [p]) l = unasked led l.
Proof.
  unfold unasked. induction l as [|q l IH]; intros Hp; [done|].
  apply not_elem_of_cons in Hp as [Hne Hp]. rewrite !filter_cons.
  rewrite IH by done.
  destruct (decide (q ∉ led)) as [Hq|Hq].
  - rewrite decide_True; [done|].
    rewrite elem_of_app, list_elem_of_singleton. intros [?|?]; [tauto|congruence].
  - rewrite decide_False; [done|].
    rewrite elem_of_app. intros Hn. apply Hq. tauto.
Qed.

Lemma unasked_cons (led l : list peer) (p : peer) :
  unasked led (p :: l)
  = if bool_decide (p ∈ led) then unasked led l else p :: unasked led l.
Proof.
  unfold unasked. rewrite filter_cons. case_bool_decide.
  - rewrite decide_False; [done|tauto].
  - by rewrite decide_True.
Qed.

Lemma ask_all_spec (h : string) (l : list peer) (st : state) :
  NoDup l →
  same_pool st (foldl (ask_peer h) st l)
  ∧ tasks (foldl (ask_peer h) st l) = tasks st ++ unasked (ledger st h) l
  ∧ ledger (foldl (ask_peer h) st l) h = ledger st h ++ unasked (ledger st h) l
  ∧ (∀ h', h' ≠ h → ledger (foldl (ask_peer h) st l) h' = ledger st h').
Proof.
  revert st. induction l as [|p l IH]; intros st Hnd; simpl.
  - unfold unasked. rewrite filter_nil, !app_nil_r. split; [apply same_pool_refl|done].
  - apply NoDup_cons in Hnd as [Hp Hnd].
    destruct (ask_peer_spec h st p) as (Hs & Ht & Hl & Ho). simpl in *.
    destruct (IH (ask_peer h st p) Hnd) as (Hs' & Ht' & Hl' & Ho').
    split; [eapply same_pool_trans; eauto|].
    rewrite Ht', Hl', Ht, Hl, unasked_cons.
    case_bool_decide as Hin.
    + rewrite !app_nil_r.
      split; [done|]. split; [done|].
      intros h' Hne. rewrite Ho', Ho; done.
    + rewrite unasked_snoc_fresh by done.
      rewrite <- !app_assoc. simpl.
      split; [done|]. split; [done|].
      intros h' Hne. rewrite Ho', Ho; done.
Qed.

(** [_update_requests] asks exactly the peers of the pool that the ledger
    entry of the current chunk does not hold, and records them. *)
Lemma update_requests_spec (st : state) (b : BlobFile) :
  current_blob st = Some b →
  ∃ st', _update_requests st = Ok st'
    ∧ same_pool st st'
    ∧ tasks st' = tasks st
                  ++ unasked (ledger st (blob_hash b)) (elements (connections st))
    ∧ ledger st' (blob_hash b)
      = ledger st (blob_hash b)
        ++ unasked (ledger st (blob_hash b)) (elements (connections st))
    ∧ (∀ h', h' ≠ blob_hash b → ledger st' h' = ledger st h').
Proof.
  intros Hb. unfold _update_requests. rewrite Hb. eexists. split; [done|].
  set (st1 := match requests st !! blob_hash b with
              | Some _ => st | None => _ end).
  assert (same_pool st st1 ∧ tasks st1 = tasks st ∧ ∀ h', ledger st1 h' = ledger st h')
    as (Hs1 & Ht1 & Hl1).
  { subst st1. destruct (requests st !! blob_hash b) eqn:Hr.
    - split; [apply same_pool_refl|done].
    - split; [by repeat split|]. split; [done|].
      intros h'. rewrite ledger_insert. case_decide as Heq; [|done].
      subst h'. unfold ledger. by rewrite Hr. }
  assert (connections st1 = connections st) as Hc by apply Hs1.
  destruct (ask_all_spec (blob_hash b) (elements (connections st1)) st1)
    as (Hs & Ht & Hl & Ho); [apply NoDup_elements|].
  rewrite Hc, Hl1, Ht1 in *.
  split; [eapply same_pool_trans; eauto|].
  split; [done|]. split; [done|].
  intros h' Hne. rewrite Ho, Hl1; done.
Qed.

Lemma update_requests_None (st : state) :
  current_blob st = None → _update_requests st = Raise AttributeError.
Proof. intros Hb. unfold _update_requests. by rewrite Hb. Qed.

Lemma ask_all_scheduled (h : string) (l : list peer) (st : state) :
  scheduled (foldl (ask_peer h) st l) = scheduled st.
Proof.
  revert st. induction l as [|p l IH]; intros st; [done|]. simpl. rewrite IH.
  unfold ask_peer. by case_bool_decide.
Qed.

(** [_update_requests] does not touch the scheduled tasks. *)
Lemma update_requests_scheduled (st st' : state) :
  _update_requests st = Ok st' → scheduled st' = scheduled st.
Proof.
  unfold _update_requests. destruct (current_blob st) as [b|]; [|done].
  intros [= <-]. rewrite ask_all_scheduled. by destruct (requests st !! blob_hash b).
Qed.

End Dispatch.

(** * The ledger invariant *)

Section Ledger.
Import Downloader.

Lemma ledger_ok_ext (st st' : state) :
  calls st' = calls st → tasks st' = tasks st →
  current_blob st' = current_blob st → requests st' = requests st →
  scheduled st' = scheduled st →
  ledger_ok st → ledger_ok st'.
Proof.
  intros Hc Ht Hb Hr Hs. unfold ledger_ok, requested, pending, ledger.
  by rewrite Hc, Ht, Hb, Hr, Hs.
Qed.

Lemma NoDup_unasked (led l : list peer) : NoDup l → NoDup (unasked led l).
Proof. apply NoDup_filter. Qed.

Lemma elem_of_unasked (led l : list peer) (p : peer) :
  p ∈ unasked led l ↔ (p ∉ led) ∧ (p ∈ l).
Proof. unfold unasked. by rewrite list_elem_of_filter. Qed.

Lemma update_requests_ledger_ok (st st' : state) :
  _update_requests st = Ok st' → ledger_ok st → ledger_ok st'.
Proof.
  intros Hu (Hnd & Hin & Hled).
  destruct (current_blob st) as [b|] eqn:Hb;
    [|by rewrite update_requests_None in Hu].
  destruct (update_requests_spec st b Hb) as (st2 & Hu2 & Hs & Ht & Hl & Ho).
  rewrite Hu in Hu2. injection Hu2 as <-.
  destruct Hs as (Hc & _ & Hb' & _ & _ & _ & _ & Hcalls).
  set (new := unasked (ledger st (blob_hash b)) (elements (connections st))) in *.
  assert (requested st' ++ pending st'
          = (requested st ++ pending st) ++ map (λ p, (p, blob_hash b)) new) as Heq.
  { unfold requested, pending.
    rewrite Hcalls, Hb', Hb, Ht, (update_requests_scheduled st st' Hu).
    by rewrite !app_assoc, !map_app, !app_assoc. }
  assert (∀ p h, p ∈ ledger st h → p ∈ ledger st' h) as Hmono.
  { intros p h Hp. destruct (decide (h = blob_hash b)) as [->|Hne].
    - rewrite Hl. apply elem_of_app. by left.
    - by rewrite Ho. }
  split; [|split].
  - rewrite Heq. apply NoDup_app. split; [done|]. split.
    + intros [p h] Hold Hnew. apply list_elem_of_fmap in Hnew as (q & [= -> ->] & Hq).
      apply elem_of_unasked in Hq as [Hq _]. apply Hq. by apply Hin.
    + apply NoDup_fmap_2; [|apply NoDup_unasked, NoDup_elements].
      intros p q [= ->]. done.
  - intros p h. rewrite Heq, elem_of_app. intros [Hold|Hnew].
    + apply Hmono. by apply Hin.
    + apply list_elem_of_fmap in Hnew as (q & [= -> ->] & Hq).
      rewrite Hl. apply elem_of_app. by right.
  - intros h. destruct (decide (h = blob_hash b)) as [->|Hne].
    + rewrite Hl. apply NoDup_app. split; [apply Hled|]. split.
      * intros p Hp Hq. apply elem_of_unasked in Hq as [Hq _]. done.
      * apply NoDup_unasked, NoDup_elements.
    + rewrite Ho by done. apply Hled.
Qed.

Lemma request_blob_start_all (l : list peer) (st : state) :
  calls (foldl _request_blob_start st l)
  = calls st ++ map (λ p, RequestBlobs p (current_blob st)) l
  ∧ connections (foldl _request_blob_start st l) = connections st
  ∧ has_peers (foldl _request_blob_start st l) = has_peers st
  ∧ tasks (foldl _request_blob_start st l) = tasks st
  ∧ requests (foldl _request_blob_start st l) = requests st
  ∧ current_blob (foldl _request_blob_start st l) = current_blob st
  ∧ lock (foldl _request_blob_start st l) = lock st
  ∧ accumulator_task (foldl _request_blob_start st l) = accumulator_task st
  ∧ download_task (foldl _request_blob_start st l) = download_task st
  ∧ verified (foldl _request_blob_start st l) = verified st.
Proof.
  revert st. induction l as [|p l IH]; intros st; simpl.
  - by rewrite app_nil_r.
  - destruct (IH (_request_blob_start st p))
      as (-> & -> & -> & -> & -> & -> & -> & -> & -> & ->).
    simpl. by rewrite <- app_assoc.
Qed.

Lemma requested_of_started (b : option BlobFile) (l : list peer) :
  omap request_of (map (λ p, RequestBlobs p b) l)
  = match b with
    | Some b => map (λ p, (p, blob_hash b)) l
    | None => []
    end.
Proof.
  induction l as [|p l IH]; [by destruct b|].
  cbn. destruct b; cbn; [by rewrite IH|done].
Qed.

(** What [launch_tasks] does to the state. *)
Lemma launch_tasks_spec (st : state) :
  (snd (launch_tasks st) = Suspend L172 ∨ snd (launch_tasks st) = Suspend L173)
  ∧ tasks (fst (launch_tasks st)) = []
  ∧ (calls (fst (launch_tasks st)), scheduled (fst (launch_tasks st)))
    = (calls st, scheduled st ++ rev (tasks st))
  ∧ connections (fst (launch_tasks st)) = connections st
  ∧ has_peers (fst (launch_tasks st)) = has_peers st
  ∧ requests (fst (launch_tasks st)) = requests st
  ∧ current_blob (fst (launch_tasks st)) = current_blob st
  ∧ lock (fst (launch_tasks st)) = lock st
  ∧ accumulator_task (fst (launch_tasks st)) = accumulator_task st
  ∧ download_task (fst (launch_tasks st)) = download_task st
  ∧ verified (fst (launch_tasks st)) = verified st.
Proof.
  unfold launch_tasks. destruct (tasks st) as [|p l] eqn:Ht.
  - simpl. rewrite app_nil_r, Ht. tauto.
  - cbn [fst snd tasks calls connections has_peers requests current_blob lock
         accumulator_task download_task verified scheduled set_tasks set_scheduled].
    tauto.
Qed.

Lemma pending_launch (st : state) :
  requested (fst (launch_tasks st)) = requested st
  ∧ pending (fst (launch_tasks st)) ≡ₚ pending st.
Proof.
  destruct (launch_tasks_spec st) as (_ & Ht & Hcs & _ & _ & _ & Hb & _).
  injection Hcs as Hc Hs. unfold requested, pending. rewrite Hc, Hb, Ht, Hs.
  split; [done|]. destruct (current_blob st) as [b|]; [|done].
  rewrite app_nil_r. apply fmap_Permutation, Permutation_app_head.
  by rewrite <- Permutation_rev.
Qed.

Lemma launch_tasks_ledger_ok (st : state) :
  ledger_ok st → ledger_ok (fst (launch_tasks st)).
Proof.
  intros (Hnd & Hin & Hled).
  destruct (launch_tasks_spec st) as (_ & _ & _ & _ & _ & Hr & _).
  destruct (pending_launch st) as [Hq Hp].
  assert (requested (fst (launch_tasks st)) ++ pending (fst (launch_tasks st))
          ≡ₚ requested st ++ pending st) as Hperm by (by rewrite Hq, Hp).
  split; [|split].
  - by rewrite Hperm.
  - intros p h Hp'. rewrite Hperm in Hp'. unfold ledger. rewrite Hr. by apply Hin.
  - intros h. unfold ledger. rewrite Hr. apply Hled.
Qed.

(** The first steps of the scheduled tasks. *)
Lemma start_scheduled_spec (st : state) :
  calls (start_scheduled st)
  = calls st ++ map (λ p, RequestBlobs p (current_blob st)) (scheduled st)
  ∧ scheduled (start_scheduled st) = []
  ∧ connections (start_scheduled st) = connections st
  ∧ has_peers (start_scheduled st) = has_peers st
  ∧ tasks (start_scheduled st) = tasks st
  ∧ requests (start_scheduled st) = requests st
  ∧ current_blob (start_scheduled st) = current_blob st
  ∧ lock (start_scheduled st) = lock st
  ∧ accumulator_task (start_scheduled st) = accumulator_task st
  ∧ download_task (start_scheduled st) = download_task st
  ∧ verified (start_scheduled st) = verified st.
Proof.
  unfold start_scheduled.
  destruct (request_blob_start_all (scheduled st) st)
    as (Hc & ? & ? & ? & ? & ? & ? & ? & ? & ?).
  cbn [tasks calls connections has_peers requests current_blob lock
       accumulator_task download_task verified scheduled set_scheduled].
  rewrite Hc. tauto.
Qed.

Lemma start_next_spec (st : state) :
  calls (start_next st)
  = calls st ++ map (λ p, RequestBlobs p (current_blob st)) (take 1 (scheduled st))
  ∧ scheduled (start_next st) = drop 1 (scheduled st)
  ∧ connections (start_next st) = connections st
  ∧ has_peers (start_next st) = has_peers st
  ∧ tasks (start_next st) = tasks st
  ∧ requests (start_next st) = requests st
  ∧ current_blob (start_next st) = current_blob st
  ∧ lock (start_next st) = lock st
  ∧ accumulator_task (start_next st) = accumulator_task st
  ∧ download_task (start_next st) = download_task st
  ∧ verified (start_next st) = verified st.
Proof.
  unfold start_next. destruct (scheduled st) as [|p l] eqn:Hs; simpl.
  - rewrite app_nil_r, Hs. tauto.
  - tauto.
Qed.

(** Starting scheduled tasks moves their requests from the pending ones to
    the issued ones. *)
Lemma requested_pending_started (st st' : state) (n : nat) :
  calls st' = calls st ++ map (λ p, RequestBlobs p (current_blob st)) (take n (scheduled st)) →
  scheduled st' = drop n (scheduled st) →
  tasks st' = tasks st → current_blob st' = current_blob st →
  requested st' ++ pending st' = requested st ++ pending st.
Proof.
  intros Hc Hs Ht Hb. unfold requested, pending.
  rewrite Hc, Hs, Ht, Hb, omap_app, requested_of_started.
  destruct (current_blob st) as [b|]; [|by rewrite !app_nil_r].
  rewrite <- app_assoc. f_equal. rewrite <- map_app, app_assoc. do 2 f_equal.
  apply take_drop.
Qed.

Lemma start_scheduled_requested (st : state) :
  requested (start_scheduled st) ++ pending (start_scheduled st)
  = requested st ++ pending st.
Proof.
  destruct (start_scheduled_spec st) as (Hc & Hs & _ & _ & Ht & _ & Hb & _).
  apply (requested_pending_started st _ (length (scheduled st))); try done.
  - by rewrite firstn_all.
  - by rewrite drop_all.
Qed.

Lemma start_next_requested (st : state) :
  requested (start_next st) ++ pending (start_next st)
  = requested st ++ pending st.
Proof.
  destruct (start_next_spec st) as (Hc & Hs & _ & _ & Ht & _ & Hb & _).
  by apply (requested_pending_started st _ 1).
Qed.

End Ledger.

(** * The other tasks: what they change *)

Section Environment.
Import Downloader.

(** The timeout branch of [_request_blob] with the lock free. *)
Lemma request_blob_timeout (p : peer) (st : state) :
  lock st = false →
  ∃ st', _request_blob p (Raise TimeoutError) st
         = Some (if bool_decide (p ∈ connections st) then Ok tt else Raise KeyError, st')
    ∧ connections st' = connections st ∖ {[p]}
    ∧ has_peers st'
      = (if bool_decide (p ∈ connections st) && bool_decide (connections st ∖ {[p]} = ∅)
         then false else has_peers st)
    ∧ tasks st' = tasks st
    ∧ requests st' = requests st
    ∧ current_blob st' = current_blob st
    ∧ lock st' = false
    ∧ accumulator_task st' = accumulator_task st
    ∧ download_task st' = download_task st
    ∧ verified st' = verified st
    ∧ calls st' = calls st.
Proof.
  intros Hl. unfold _request_blob. rewrite Hl. simpl.
  case_bool_decide as Hin; simpl.
  - eexists. split; [done|].
    case_bool_decide; simpl; repeat split; done.
  - eexists. split; [done|]. simpl.
    repeat split; try done. set_solver.
Qed.

Lemma request_blob_locked (p : peer) (st : state) :
  lock st = true → _request_blob p (Raise TimeoutError) st = None.
Proof. intros Hl. unfold _request_blob. by rewrite Hl. Qed.

Lemma request_blob_other (p : peer) (o : result unit) (st : state) :
  o ≠ Raise TimeoutError → _request_blob p o st = Some (o, st).
Proof. intros Ho. unfold _request_blob. by destruct o as [|[]]. Qed.

Lemma requested_stop (st : state) : requested (stop st) = requested st.
Proof.
  unfold requested. rewrite stop_calls, omap_app.
  assert (omap request_of
            (PeerFinderStop :: map DisconnectTcp (elements (connections st))) = [])
    as ->; [|apply app_nil_r].
  cbn. induction (elements (connections st)) as [|p l IH]; [done|]. cbn. apply IH.
Qed.

Lemma disconnect_all_scheduled (l : list peer) (st : state) :
  scheduled (foldl disconnect_one st l) = scheduled st.
Proof.
  revert st. induction l as [|p l IH]; intros st; [done|]. simpl. by rewrite IH.
Qed.

Lemma stop_scheduled (st : state) : scheduled (stop st) = scheduled st.
Proof.
  unfold stop. rewrite disconnect_all_scheduled.
  destruct (task_truthy (accumulator_task st) && _);
    destruct (task_truthy (download_task _) && _); done.
Qed.

(** Every event but the first step of a fetch task leaves the issued
    requests and the scheduled tasks as they are. *)
Lemma env_step_scheduled (st : state) (e : event) :
  e ≠ FetchStarted →
  scheduled (env_step st e) = scheduled st
  ∧ requested (env_step st e) = requested st.
Proof.
  intros He. destruct e as [p|p|h| |]; unfold env_step; try done.
  - unfold _accumulate_connections. destruct (lock st) eqn:Hl; simpl; [done|].
    by destruct (has_peers st).
  - destruct (lock st) eqn:Hl.
    + by rewrite request_blob_locked.
    + unfold _request_blob. rewrite Hl. simpl.
      repeat case_bool_decide; done.
  - by rewrite stop_scheduled, requested_stop.
Qed.

(** No other task touches the ledger, the coroutine list, the current
    chunk or the lock state seen between segments, none creates a request
    that was not already pending, and none makes a verified chunk
    unverified. *)
Lemma env_step_frame (st : state) (e : event) :
  tasks (env_step st e) = tasks st
  ∧ requests (env_step st e) = requests st
  ∧ current_blob (env_step st e) = current_blob st
  ∧ lock (env_step st e) = lock st
  ∧ requested (env_step st e) ++ pending (env_step st e)
    = requested st ++ pending st
  ∧ verified st ⊆ verified (env_step st e).
Proof.
  destruct (decide (e = FetchStarted)) as [->|He].
  { unfold env_step.
    destruct (start_next_spec st) as (_ & _ & _ & _ & -> & -> & -> & -> & _ & _ & ->).
    by rewrite start_next_requested. }
  destruct (env_step_scheduled st e He) as [Hs Hq].
  assert (tasks (env_step st e) = tasks st
          ∧ requests (env_step st e) = requests st
          ∧ current_blob (env_step st e) = current_blob st
          ∧ lock (env_step st e) = lock st
          ∧ verified st ⊆ verified (env_step st e)) as (Ht & Hr & Hb & Hl & Hv).
  { destruct e as [p|p|h| |]; unfold env_step; try done.
    - unfold _accumulate_connections. destruct (lock st) eqn:Hl; simpl; [done|].
      destruct (has_peers st); simpl; split_and!; done.
    - destruct (lock st) eqn:Hl.
      + by rewrite request_blob_locked.
      + destruct (request_blob_timeout p st Hl)
          as (st' & Heq & _ & _ & Ht & Hr & Hb & Hl' & _ & _ & Hv & Hc).
        rewrite Heq. simpl. by rewrite Ht, Hr, Hb, Hl', Hv.
    - split_and!; try done. simpl. set_solver.
    - destruct (stop_frame st) as (_ & -> & -> & -> & -> & ->). done. }
  split_and!; try done.
  unfold pending. by rewrite Hq, Hs, Ht, Hb.
Qed.

Lemma env_steps_frame (es : list event) (st : state) :
  tasks (env_steps st es) = tasks st
  ∧ requests (env_steps st es) = requests st
  ∧ current_blob (env_steps st es) = current_blob st
  ∧ lock (env_steps st es) = lock st
  ∧ requested (env_steps st es) ++ pending (env_steps st es)
    = requested st ++ pending st
  ∧ verified st ⊆ verified (env_steps st es).
Proof.
  revert st. induction es as [|e es IH]; intros st; [done|].
  simpl. destruct (IH (env_step st e)) as (-> & -> & -> & -> & -> & Hv).
  destruct (env_step_frame st e) as (-> & -> & -> & -> & -> & Hv').
  split_and!; try done. set_solver.
Qed.

(** With no task scheduled, no event issues a request. *)
Lemma env_steps_idle (es : list event) (st : state) :
  scheduled st = [] →
  scheduled (env_steps st es) = [] ∧ requested (env_steps st es) = requested st.
Proof.
  revert st. induction es as [|e es IH]; intros st Hs; [done|]. simpl.
  assert (scheduled (env_step st e) = [] ∧ requested (env_step st e) = requested st)
    as [Hs' Hq'].
  { destruct (decide (e = FetchStarted)) as [->|He].
    - unfold env_step, start_next. by rewrite Hs.
    - destruct (env_step_scheduled st e He) as [-> ->]. done. }
  destruct (IH _ Hs') as [-> ->]. done.
Qed.

Lemma env_steps_ledger_ok (es : list event) (st : state) :
  ledger_ok st → ledger_ok (env_steps st es).
Proof.
  destruct (env_steps_frame es st) as (Ht & Hr & Hb & _ & Hq & _).
  unfold ledger_ok, ledger. by rewrite Hr, Hq.
Qed.

Lemma start_scheduled_ledger_ok (st : state) :
  ledger_ok st → ledger_ok (start_scheduled st).
Proof.
  destruct (start_scheduled_spec st) as (_ & _ & _ & _ & _ & Hr & _).
  unfold ledger_ok, ledger. by rewrite Hr, start_scheduled_requested.
Qed.

End Environment.

(** * The segments of [get_blob] *)

Section Segments.
Import Downloader.

Lemma update_requests_keeps (st : state) (b : BlobFile) :
  current_blob st = Some b →
  ∃ st2, _update_requests st = Ok st2
    ∧ current_blob st2 = Some b
    ∧ verified st2 = verified st
    ∧ lock st2 = lock st
    ∧ (ledger_ok st → ledger_ok st2).
Proof.
  intros Hb. destruct (update_requests_spec st b Hb) as (st2 & Hu & Hs & _).
  exists st2. destruct Hs as (_ & _ & Hb2 & Hl & _ & _ & Hv & _).
  split_and!; try done; try congruence.
  intros Hok. by eapply update_requests_ledger_ok.
Qed.

Lemma launch_tasks_post (b : BlobFile) (st : state) :
  current_blob st = Some b → seg_post b st (launch_tasks st).
Proof.
  intros Hb.
  destruct (launch_tasks_spec st)
    as (Hc & Ht & _ & _ & _ & _ & Hb' & Hl & _ & _ & Hv).
  unfold seg_post. rewrite Hb', Hl, Hv.
  split; [done|]. split; [done|]. split; [apply launch_tasks_ledger_ok|].
  split; [done|]. by destruct Hc as [-> | ->].
Qed.

Lemma after_lock_post (b : BlobFile) (st : state) :
  current_blob st = Some b → seg_post b st (after_lock st).
Proof.
  intros Hb. unfold after_lock.
  set (st3 := set_lock false _).
  destruct (update_requests_keeps st3 b) as (st4 & -> & Hb4 & Hv4 & Hl4 & Hok4);
    [done|]. simpl.
  destruct (launch_tasks_post b st4 Hb4) as (Hb5 & Hv5 & Hok5 & Hl5 & Hc5).
  split; [done|]. split; [by rewrite Hv5, Hv4|].
  split. { intros Hok. apply Hok5, Hok4. revert Hok. by apply ledger_ok_ext. }
  split. { intros _. by apply Hl5. }
  destruct (launch_tasks_spec st4) as ([-> | ->] & Ht & _); done.
Qed.

Lemma loop_head_post (b : BlobFile) (st : state) :
  current_blob st = Some b → seg_post b st (loop_head st).
Proof.
  intros Hb. unfold loop_head. rewrite Hb.
  destruct (get_is_verified b st) eqn:Hver.
  { unfold seg_post. simpl. by rewrite Hver. }
  destruct (negb (has_peers st) && bool_decide (connections st ≠ ∅)) eqn:Hfirst.
  { destruct (update_requests_keeps st b Hb) as (st2 & -> & Hb2 & Hv2 & Hl2 & Hok2).
    simpl.
    destruct (launch_tasks_post b st2 Hb2) as (Hb3 & Hv3 & Hok3 & Hl3 & Hc3).
    split; [done|]. split; [congruence|]. split; [auto|].
    split. { intros Hl. apply Hl3. congruence. }
    destruct (launch_tasks_spec st2) as ([-> | ->] & Ht & _); done. }
  destruct (has_peers st) eqn:Hhp.
  { set (st1 := set_has_peers false st).
    destruct (update_requests_keeps st1 b) as (st2 & -> & Hb2 & Hv2 & Hl2 & Hok2);
      [done|]. simpl.
    assert (ledger_ok st → ledger_ok st2) as Hok.
    { intros H. apply Hok2. revert H. by apply ledger_ok_ext. }
    destruct (lock st2) eqn:Hl.
    - unfold seg_post. subst st1. simpl in *. split_and!; try done; congruence.
    - destruct (after_lock_post b st2 Hb2) as (Hb3 & Hv3 & Hok3 & Hl3 & Hc3).
      split; [done|]. split; [by rewrite Hv3, Hv2|]. split; [auto|].
      split; [auto|].
      destruct (snd (after_lock st2)) as [b'| |[]]; try done.
      + destruct Hc3 as (_ & Hc3 & _). unfold get_is_verified in *.
        rewrite Hv2 in Hc3. simpl in Hc3. congruence.
      + congruence. }
  by apply launch_tasks_post.
Qed.

Lemma enter_post_holds (h : string) (len : option Z) (st : state) :
  enter_post (blob_manager_get_blob h len) st (enter h len st).
Proof.
  set (b := blob_manager_get_blob h len). unfold enter. fold b.
  set (st3 := set_lock false _).
  assert (tasks st = [] → scheduled st = [] → ledger_ok st → ledger_ok st3) as Hok3.
  { intros Ht Hs (Hnd & Hin & Hled).
    unfold ledger_ok, pending, requested, ledger in *.
    simpl. rewrite Ht, Hs in *. destruct (current_blob st); simpl in *; done. }
  change (current_blob st3) with (Some b). cbv iota beta.
  destruct (get_is_verified b st3) eqn:Hver.
  { unfold enter_post. simpl. split_and!; done. }
  destruct (update_requests_keeps st3 b) as (st4 & -> & Hb4 & Hv4 & Hl4 & Hok4);
    [done|]. simpl.
  destruct (loop_head_post b st4 Hb4) as (Hb5 & Hv5 & Hok5 & Hl5 & Hc5).
  split; [done|]. split; [by rewrite Hv5, Hv4|]. split; [auto|].
  split; [by apply Hl5|].
  destruct (snd (loop_head st4)) as [b'| |[]]; try done.
  - destruct Hc5 as (_ & Hc5 & _). unfold get_is_verified in *.
    rewrite Hv4 in Hc5. congruence.
  - simpl in Hl4. congruence.
Qed.

End Segments.

(** * Runs of [get_blob] *)

Section Runs.
Import Downloader.

Lemma seg_post_acquiring (b : BlobFile) (st : state) (r : state * ctl) :
  seg_post b st r → acquiring b r.
Proof.
  intros (Hb & Hv & _ & _ & Hc). unfold acquiring.
  destruct (snd r) as [b'| |[]]; try done.
  destruct Hc as (-> & Hver & _). unfold get_is_verified in *. by rewrite Hv.
Qed.

Lemma enter_acquiring (h : string) (len : option Z) (st : state) :
  acquiring (blob_manager_get_blob h len) (enter h len st).
Proof.
  destruct (enter_post_holds h len st) as (Hb & Hv & _ & _ & Hc).
  unfold acquiring. destruct (snd (enter h len st)) as [b'| |[]]; try done.
  destruct Hc as (-> & Hver & _). unfold get_is_verified in *. by rewrite Hv.
Qed.

Lemma get_blob_acquiring (h : string) (len : option Z) (st : state) :
  acquiring (blob_manager_get_blob h len) (get_blob h len st).
Proof.
  unfold get_blob. destruct (lock st); [done|]. apply enter_acquiring.
Qed.

Lemma resume_acquiring (b : BlobFile) (k : pc) (st st' : state) :
  current_blob st' = current_blob st →
  acquiring b (st, Suspend k) → acquiring b (resume k st').
Proof.
  intros Hb Ha. unfold resume.
  destruct (cancel_requested _); [done|].
  destruct k as [h len| | |]; unfold acquiring in Ha; simpl in Ha.
  - destruct (lock _); [done|]. subst b. apply enter_acquiring.
  - destruct (lock _); [unfold acquiring; simpl; congruence|].
    apply seg_post_acquiring with (st := st').
    apply after_lock_post. congruence.
  - unfold acquiring. simpl. congruence.
  - rewrite Hb, Ha. destruct (get_is_verified b _) eqn:Hver.
    + unfold acquiring. simpl. split_and!; [done|done|congruence].
    + apply seg_post_acquiring with (st := st').
      apply loop_head_post. congruence.
Qed.

(** The state in which [get_blob] is resumed after a batch of events. *)
Lemma batch_frame (es : list event) (st : state) :
  tasks (start_scheduled (env_steps st es)) = tasks st
  ∧ requests (start_scheduled (env_steps st es)) = requests st
  ∧ current_blob (start_scheduled (env_steps st es)) = current_blob st
  ∧ lock (start_scheduled (env_steps st es)) = lock st
  ∧ requested (start_scheduled (env_steps st es))
    ++ pending (start_scheduled (env_steps st es))
    = requested st ++ pending st
  ∧ verified (start_scheduled (env_steps st es)) = verified (env_steps st es)
  ∧ scheduled (start_scheduled (env_steps st es)) = [].
Proof.
  destruct (env_steps_frame es st) as (Ht & Hr & Hb & Hl & Hq & _).
  destruct (start_scheduled_spec (env_steps st es))
    as (_ & -> & _ & _ & -> & -> & -> & -> & _ & _ & ->).
  by rewrite start_scheduled_requested.
Qed.

Lemma run_acquiring (b : BlobFile) (sched : list (list event)) (c : state * ctl) :
  acquiring b c →
  ∀ b' st', run sched c = (Returned b', st') →
    b' = b ∧ get_is_verified b st' = true ∧ current_blob st' = Some b.
Proof.
  revert c. induction sched as [|es sched IH]; intros [st [b0|e|k]] Ha b' st' Hrun;
    simpl in Hrun; try discriminate.
  - injection Hrun as <- <-. apply Ha.
  - injection Hrun as <- <-. apply Ha.
  - eapply IH; [|exact Hrun]. apply resume_acquiring with (st := st); [|done].
    by destruct (batch_frame es st) as (_ & _ & -> & _).
Qed.

Lemma run_raises_only_cancel (b : BlobFile) (sched : list (list event))
  (c : state * ctl) (e : exn) :
  acquiring b c → fst (run sched c) = Raised e → e = CancelledError.
Proof.
  revert c. induction sched as [|es sched IH]; intros [st [b0|e0|k]] Ha Hrun;
    simpl in Hrun; try discriminate.
  - injection Hrun as <-. apply Ha.
  - injection Hrun as <-. apply Ha.
  - eapply IH; [|exact Hrun]. apply resume_acquiring with (st := st); [|done].
    by destruct (batch_frame es st) as (_ & _ & -> & _).
Qed.

(** The invariant of the states between two segments. *)
Lemma Inv_init : Inv init.
Proof.
  unfold Inv, ledger_ok, requested, pending, ledger. simpl.
  split_and!; try done.
  - apply NoDup_nil_2.
  - intros p h Hin. by apply elem_of_nil in Hin.
  - intros h. rewrite lookup_empty. apply NoDup_nil_2.
Qed.

Lemma Idle_init : Idle init.
Proof. split; [apply Inv_init|done]. Qed.

(** A new downloader, whatever its two task attributes. *)
Lemma Idle_started (a d : task) :
  Idle (set_accumulator_task a (set_download_task d init)).
Proof.
  destruct Idle_init as [(Hl & Ht & Hok) Hs]. split; [|done].
  split_and!; [done|done|]. revert Hok. by apply ledger_ok_ext.
Qed.

Lemma Inv_env_steps (es : list event) (st : state) :
  Inv st → Inv (env_steps st es).
Proof.
  intros (Hl & Ht & Hok).
  destruct (env_steps_frame es st) as (Ht' & _ & _ & Hl' & _).
  split_and!; [congruence|congruence|by apply env_steps_ledger_ok].
Qed.

Lemma Idle_env_steps (es : list event) (st : state) :
  Idle st → Idle (env_steps st es).
Proof.
  intros [HI Hs]. split; [by apply Inv_env_steps|].
  by destruct (env_steps_idle es st Hs).
Qed.

Lemma Inv_start_scheduled (st : state) : Inv st → Inv (start_scheduled st).
Proof.
  intros (Hl & Ht & Hok).
  destruct (start_scheduled_spec st) as (_ & _ & _ & _ & Ht' & _ & _ & Hl' & _).
  split_and!; [congruence|congruence|by apply start_scheduled_ledger_ok].
Qed.

Lemma Idle_batch (es : list event) (st : state) :
  Inv st → Idle (start_scheduled (env_steps st es)).
Proof.
  intros HI. split; [by apply Inv_start_scheduled, Inv_env_steps|].
  by destruct (batch_frame es st) as (_ & _ & _ & _ & _ & _ & ->).
Qed.

Lemma seg_post_good (b : BlobFile) (st : state) (r : state * ctl) :
  Inv st → seg_post b st r → good b r.
Proof.
  intros (Hl & Ht & Hok) (Hb & Hv & Hok' & Hl' & Hc). unfold good, Inv.
  destruct (snd r) as [b'| |[]]; try done.
  - destruct Hc as (-> & Hver & Ht'). unfold get_is_verified in *. rewrite Hv.
    split_and!; auto. congruence.
  - congruence.
  - split_and!; auto.
  - split_and!; auto.
Qed.

Lemma enter_good (h : string) (len : option Z) (st : state) :
  Idle st → good (blob_manager_get_blob h len) (enter h len st).
Proof.
  intros [(Hl & Ht & Hok) Hs].
  destruct (enter_post_holds h len st) as (Hb & Hv & Hok' & Hl' & Hc).
  unfold good, Inv. destruct (snd (enter h len st)) as [b'| |[]]; try done.
  - destruct Hc as (-> & Hver & Heq). unfold get_is_verified in *. rewrite Hv.
    split_and!; auto. by rewrite Heq.
  - split_and!; auto.
  - split_and!; auto.
Qed.

Lemma get_blob_good (h : string) (len : option Z) (st : state) :
  Idle st → good (blob_manager_get_blob h len) (get_blob h len st).
Proof.
  intros HI. unfold get_blob. destruct HI as [(Hl & HI) Hs]. rewrite Hl.
  apply enter_good. by split.
Qed.

Lemma resume_good (b : BlobFile) (k : pc) (st st' : state) :
  Inv st' → current_blob st' = current_blob st →
  good b (st, Suspend k) → good b (resume k st').
Proof.
  intros HI' Hb (HI & Hk). simpl in HI, Hk.
  unfold resume. destruct (cancel_requested _); [by split|].
  destruct k as [h len| | |]; try done.
  - split; [done|]. simpl. congruence.
  - rewrite Hb, Hk. destruct (get_is_verified b _) eqn:Hver.
    + split; [done|]. simpl. split_and!; [done|done|congruence].
    + apply seg_post_good with (st := st'); [done|].
      apply loop_head_post. congruence.
Qed.

Lemma batch_good (b : BlobFile) (k : pc) (st : state) (es : list event) :
  good b (st, Suspend k) → good b (resume k (start_scheduled (env_steps st es))).
Proof.
  intros Hg. apply resume_good with (st := st); [| |done].
  - apply Idle_batch, Hg.
  - by destruct (batch_frame es st) as (_ & _ & -> & _).
Qed.

Lemma run_good (b : BlobFile) (sched : list (list event)) (c : state * ctl) :
  good b c →
  Inv (snd (run sched c))
  ∧ match fst (run sched c) with
    | Returned b' =>
        b' = b ∧ get_is_verified b (snd (run sched c)) = true
        ∧ current_blob (snd (run sched c)) = Some b
    | Raised e => e = CancelledError
    | Blocked k => (k = L172 ∨ k = L173) ∧ current_blob (snd (run sched c)) = Some b
    end.
Proof.
  revert c. induction sched as [|es sched IH]; intros [st [b0|e|k]] Hg;
    simpl; try (destruct Hg as [HI Hc]; by split).
  - destruct Hg as [HI Hc]. split; [by apply Inv_start_scheduled|]. simpl in Hc.
    assert (current_blob (start_scheduled st) = current_blob st) as Hcb
      by (by destruct (start_scheduled_spec st) as (_ & _ & _ & _ & _ & _ & -> & _)).
    destruct k; try done; (split; [auto|]); by rewrite <- Hc, <- Hcb.
  - apply IH. by apply batch_good.
Qed.

(** Segments that do not suspend schedule nothing. *)
Lemma and_then_settled (st : state) (k : state → state * ctl) :
  (∀ st', settled st' (k st')) →
  settled st (and_then st (_update_requests st) k).
Proof.
  intros Hk. destruct (_update_requests st) as [st'|e] eqn:Hu; simpl; [|by right].
  destruct (Hk st') as [Hs|Hs]; [by left|right].
  by rewrite Hs, (update_requests_scheduled st st' Hu).
Qed.

Lemma launch_tasks_settled (st : state) : settled st (launch_tasks st).
Proof. left. destruct (launch_tasks_spec st) as ([->| ->] & _); eauto. Qed.

Lemma after_lock_settled (st : state) : settled st (after_lock st).
Proof.
  unfold after_lock. set (st3 := set_lock false _).
  destruct (and_then_settled st3 launch_tasks launch_tasks_settled) as [Hs|Hs];
    [by left|by right].
Qed.

Lemma loop_head_settled (st : state) : settled st (loop_head st).
Proof.
  unfold loop_head. destruct (current_blob st) as [b|]; [|by right].
  destruct (get_is_verified b st); [by right|].
  destruct (negb (has_peers st) && bool_decide (connections st ≠ ∅)).
  { apply and_then_settled, launch_tasks_settled. }
  destruct (has_peers st); [|apply launch_tasks_settled].
  set (st1 := set_has_peers false st).
  destruct (and_then_settled st1
              (λ st2, if lock st2 then (st2, Suspend L159) else after_lock st2))
    as [Hs|Hs]; [|by left|by right].
  intros st2. destruct (lock st2); [left; eauto|apply after_lock_settled].
Qed.

Lemma enter_settled (h : string) (len : option Z) (st : state) :
  settled st (enter h len st).
Proof.
  unfold enter. set (st3 := set_lock false _).
  change (current_blob st3) with (Some (blob_manager_get_blob h len)).
  cbv iota beta. destruct (get_is_verified _ st3); [by right|].
  destruct (and_then_settled st3 loop_head loop_head_settled) as [Hs|Hs];
    [by left|by right].
Qed.

Lemma get_blob_settled (h : string) (len : option Z) (st : state) :
  settled st (get_blob h len st).
Proof.
  unfold get_blob. destruct (lock st); [left; eauto|apply enter_settled].
Qed.

Lemma resume_settled (k : pc) (st : state) : settled st (resume k st).
Proof.
  unfold resume. destruct (cancel_requested st); [by right|].
  destruct k as [h len| | |].
  - destruct (lock st); [left; eauto|apply enter_settled].
  - destruct (lock st); [left; eauto|apply after_lock_settled].
  - left. eauto.
  - destruct (current_blob st) as [b|]; [|by right].
    destruct (get_is_verified b st); [by right|apply loop_head_settled].
Qed.

(** No fetch task is left scheduled when a run ends. *)
Lemma run_idle (sched : list (list event)) (c : state * ctl) :
  settled (set_scheduled [] (fst c)) c → scheduled (snd (run sched c)) = [].
Proof.
  revert c. induction sched as [|es sched IH]; intros [st [b0|e|k]] Hc; simpl.
  - by destruct Hc as [[k Hk]|Hs].
  - by destruct Hc as [[k Hk]|Hs].
  - done.
  - by destruct Hc as [[k Hk]|Hs].
  - by destruct Hc as [[k Hk]|Hs].
  - apply IH. set (s := start_scheduled (env_steps st es)).
    destruct (resume_settled k s) as [Hs|Hs]; [by left|right].
    rewrite Hs. subst s. by destruct (batch_frame es st) as (_ & _ & _ & _ & _ & _ & ->).
Qed.

Lemma get_blob_run_idle (sched : list (list event)) (h : string) (len : option Z)
  (st : state) :
  scheduled st = [] → scheduled (snd (get_blob_run sched h len st)) = [].
Proof.
  intros Hs. apply run_idle.
  destruct (get_blob_settled h len st) as [Hk|Hk]; [by left|right].
  by rewrite Hk.
Qed.

Lemma session_Idle (acqs : list acquisition) (st : state) :
  Idle st → Idle (session acqs st).
Proof.
  revert st. induction acqs as [|a acqs IH]; intros st HI; [done|].
  simpl.
  pose proof (Idle_env_steps (acq_before a) st HI) as HI1.
  pose proof (get_blob_run_idle (acq_sched a) (acq_hash a) (acq_length a) _
                (proj2 HI1)) as Hidle.
  unfold get_blob_run in *.
  set (c := get_blob _ _ _) in *.
  assert (good (blob_manager_get_blob (acq_hash a) (acq_length a)) c) as Hg
    by (by apply get_blob_good).
  destruct (run_good _ (acq_sched a) c Hg) as [HI' _].
  destruct (run (acq_sched a) c) as [[b|e|k] st']; simpl in *;
    try (by split); apply IH; by split.
Qed.

Lemma session_Inv (acqs : list acquisition) (st : state) :
  Idle st → Inv (session acqs st).
Proof. intros HI. by apply session_Idle. Qed.

End Runs.

(** * The claims about [get_blob] *)

Section SchedulerClaims.
Import Downloader.

(** C1: whenever [get_blob] returns, from any state and under any
    schedule of the other tasks, the handle it returns is the one the
    store gave for the requested hash, it is the current chunk, and it is
    verified in the state at the return. *)
Theorem get_blob_returns_verified_handle
  (sched : list (list event)) (h : string) (len : option Z) (st : state)
  (b : BlobFile) :
  fst (get_blob_run sched h len st) = Returned b →
  b = blob_manager_get_blob h len
  ∧ get_is_verified b (snd (get_blob_run sched h len st)) = true
  ∧ current_blob (snd (get_blob_run sched h len st)) = Some b.
Proof.
  intros Hret. unfold get_blob_run in *.
  destruct (run sched (get_blob h len st)) as [o st'] eqn:Hrun. simpl in *. subst o.
  destruct (run_acquiring _ sched _ (get_blob_acquiring h len st) b st' Hrun)
    as (-> & Hv & Hb).
  done.
Qed.

Lemma get_blob_returns_verified_handle_witness :
  fst (get_blob_run [[Connected 2]; [RequestTimedOut 1]; [BlobVerified "a"]; []]
                    "a" None (env_steps init [Connected 1]))
    = Returned (blob_manager_get_blob "a" None)
  ∧ get_is_verified (blob_manager_get_blob "a" None)
      (snd (get_blob_run [[Connected 2]; [RequestTimedOut 1]; [BlobVerified "a"]; []]
                         "a" None (env_steps init [Connected 1]))) = true.
Proof.
  split; [vm_compute; reflexivity|].
  apply (get_blob_returns_verified_handle
           [[Connected 2]; [RequestTimedOut 1]; [BlobVerified "a"]; []]
           "a" None (env_steps init [Connected 1])).
  vm_compute. reflexivity.
Defined.

(** C2: in every sequence of acquisitions from the initial state, under
    any schedule of connections, timeouts, verifications and stops, each
    (peer, chunk) pair is requested at most once, every request made is
    recorded in the ledger entry of its chunk, and no ledger entry holds a
    peer twice; a pass of [_update_requests] creates coroutines for the
    pool members that the entry of the current chunk does not hold, and
    for no recorded peer. *)
Theorem no_peer_asked_twice_for_a_chunk
  (acqs : list acquisition) (p : peer) (h : string) :
  count_occ request_eq_dec (requested (session acqs init)) (p, h) ≤ 1
  ∧ ((p, h) ∈ requested (session acqs init) → p ∈ ledger (session acqs init) h)
  ∧ NoDup (ledger (session acqs init) h)
  ∧ (∀ b, current_blob (session acqs init) = Some b →
       ∃ st', _update_requests (session acqs init) = Ok st'
         ∧ tasks st' = unasked (ledger (session acqs init) (blob_hash b))
                               (elements (connections (session acqs init)))
         ∧ (p ∈ ledger (session acqs init) (blob_hash b) → p ∉ tasks st')).
Proof.
  destruct (session_Idle acqs init Idle_init) as [(Hl & Ht & Hnd & Hin & Hled) Hs].
  assert (pending (session acqs init) = []) as Hp.
  { unfold pending. rewrite Ht, Hs. by destruct (current_blob _). }
  rewrite Hp, app_nil_r in Hnd, Hin.
  split_and!.
  - apply NoDup_count_occ. by apply NoDup_ListNoDup.
  - apply Hin.
  - apply Hled.
  - intros b Hb.
    destruct (update_requests_spec _ b Hb) as (st' & Hu & _ & Ht' & _).
    exists st'. rewrite Ht, app_nil_l in Ht'. split_and!; [done|done|].
    rewrite Ht'. intros Hp' Hq. apply elem_of_unasked in Hq as [Hq _]. done.
Qed.

Lemma no_peer_asked_twice_for_a_chunk_witness :
  count_occ request_eq_dec
    (requested
       (session [mkAcq [Connected 1; Connected 2] "a" None
                   [[RequestTimedOut 1]; [Connected 1]; [Connected 3]; []; []]]
                init))
    (1, "a"%string) ≤ 1.
Proof.
  apply (no_peer_asked_twice_for_a_chunk
           [mkAcq [Connected 1; Connected 2] "a" None
              [[RequestTimedOut 1]; [Connected 1]; [Connected 3]; []; []]]
           1 "a").
Defined.

(** C3 (the code does not do this): peers 1 and 2 are asked for chunk
    "a" and, "a" being verified while the request to peer 1 is still
    running, for chunk "b".  The first timeout of a request to peer 1
    removes it from the pool; the second one, and likewise a timeout
    after [stop] has emptied the pool, makes [set.remove] raise
    [KeyError], so the fetch task ends with an error. *)
Theorem second_timeout_eviction_raises_KeyError :
  let st := session [mkAcq [Connected 1; Connected 2] "a" None [[BlobVerified "a"]; []];
                     mkAcq [] "b" None []] init in
  requested st = [(1, "a"); (2, "a"); (1, "b"); (2, "b")]%string
  ∧ elements (connections st) = [2; 1]
  ∧ fst <$> _request_blob 1 (Raise TimeoutError) st = Some (Ok tt)
  ∧ (elements ∘ connections ∘ snd) <$> _request_blob 1 (Raise TimeoutError) st
    = Some [2]
  ∧ (snd <$> _request_blob 1 (Raise TimeoutError) st)
      ≫= (λ st1, fst <$> _request_blob 1 (Raise TimeoutError) st1)
    = Some (Raise KeyError)
  ∧ fst <$> _request_blob 1 (Raise TimeoutError) (stop st) = Some (Raise KeyError).
Proof. vm_compute. done. Qed.

(** C4: in every state in which the lock is free, whatever else the
    state holds, a call of [get_blob] for a hash that is verified returns
    the handle in its first segment: under every schedule the result is
    the same and no batch of the schedule is consumed, so the call does
    not suspend; the state differs from the one at the call in
    [current_blob] only, so no request is made, no coroutine is created,
    no task is scheduled and the ledger is untouched.  The lock is free in
    every state that acquisitions and events reach from a new downloader,
    whatever its two task attributes are. *)
Theorem get_blob_cache_hit (st : state) (h : string) (len : option Z) :
  lock st = false →
  get_is_verified (blob_manager_get_blob h len) st = true →
  get_blob h len st
  = (set_current_blob (Some (blob_manager_get_blob h len)) st,
     Return (blob_manager_get_blob h len))
  ∧ (∀ sched, get_blob_run sched h len st
              = (Returned (blob_manager_get_blob h len),
                 set_current_blob (Some (blob_manager_get_blob h len)) st))
  ∧ calls (fst (get_blob h len st)) = calls st
  ∧ requests (fst (get_blob h len st)) = requests st
  ∧ tasks (fst (get_blob h len st)) = tasks st
  ∧ scheduled (fst (get_blob h len st)) = scheduled st
  ∧ (∀ a d acqs before,
       lock (env_steps
               (session acqs (set_accumulator_task a (set_download_task d init)))
               before) = false).
Proof.
  intros Hl Hver.
  assert (get_blob h len st
          = (set_current_blob (Some (blob_manager_get_blob h len)) st,
             Return (blob_manager_get_blob h len))) as Heq.
  { unfold get_blob, enter. rewrite Hl.
    change (current_blob (set_lock false _)) with (Some (blob_manager_get_blob h len)).
    cbv iota beta.
    change (get_is_verified (blob_manager_get_blob h len) (set_lock false _))
      with (get_is_verified (blob_manager_get_blob h len) st).
    rewrite Hver. f_equal. destruct st. simpl in *. by subst. }
  split_and!.
  - done.
  - intros sched. unfold get_blob_run. rewrite Heq. by destruct sched.
  - by rewrite Heq.
  - by rewrite Heq.
  - by rewrite Heq.
  - by rewrite Heq.
  - intros a d acqs before.
    apply (Inv_env_steps before), session_Inv, Idle_started.
Qed.

Lemma get_blob_cache_hit_witness :
  get_blob_run [] "a" None (env_steps init [BlobVerified "a"])
  = (Returned (blob_manager_get_blob "a" None),
     set_current_blob (Some (blob_manager_get_blob "a" None))
       (env_steps init [BlobVerified "a"])).
Proof.
  apply (get_blob_cache_hit (env_steps init [BlobVerified "a"]) "a" None).
  - vm_compute. reflexivity.
  - vm_compute. reflexivity.
Defined.

End SchedulerClaims.

Section Passes.
Import Downloader.

Lemma unasked_nil (led l : list peer) :
  (∀ q, q ∈ l → q ∈ led) → unasked led l = [].
Proof.
  intros Hall. unfold unasked. induction l as [|q l IH]; [done|].
  rewrite filter_cons. rewrite decide_False.
  - apply IH. intros q' Hq'. apply Hall. by right.
  - intros Hn. apply Hn, Hall. by left.
Qed.

Lemma unasked_after_asking (led l : list peer) :
  unasked (led ++ unasked led l) l = [].
Proof.
  apply unasked_nil. intros q Hq.
  destruct (decide (q ∈ led)) as [Hin|Hnin]; apply elem_of_app; [by left|right].
  by apply elem_of_unasked.
Qed.

(** What [_update_requests] followed by [launch_tasks] does. *)
Lemma update_launch_pass (st : state) (b : BlobFile) :
  current_blob st = Some b →
  ∃ st2, _update_requests st = Ok st2
    ∧ (snd (launch_tasks st2) = Suspend L172 ∨ snd (launch_tasks st2) = Suspend L173)
    ∧ tasks (fst (launch_tasks st2)) = []
    ∧ scheduled (fst (launch_tasks st2))
      = scheduled st
        ++ rev (tasks st
                ++ unasked (ledger st (blob_hash b)) (elements (connections st)))
    ∧ ledger (fst (launch_tasks st2)) (blob_hash b)
      = ledger st (blob_hash b)
        ++ unasked (ledger st (blob_hash b)) (elements (connections st))
    ∧ calls (fst (launch_tasks st2)) = calls st
    ∧ connections (fst (launch_tasks st2)) = connections st
    ∧ current_blob (fst (launch_tasks st2)) = Some b.
Proof.
  intros Hb.
  destruct (update_requests_spec st b Hb) as (st2 & Hu & Hs & Ht & Hl & _).
  exists st2. split; [done|].
  destruct (launch_tasks_spec st2) as (Hc & Ht2 & Hcs & Hcn & _ & Hr & Hb2 & _).
  injection Hcs as Hcalls Hsch.
  destruct Hs as (Hcn' & _ & Hb' & _ & _ & _ & _ & Hcalls').
  split_and!; try done.
  - by rewrite Hsch, (update_requests_scheduled st st2 Hu), Ht.
  - unfold ledger at 1. rewrite Hr. apply Hl.
  - congruence.
  - congruence.
  - congruence.
Qed.

(** One pass of the loop over an unverified chunk with the lock free: every
    coroutine left in [self.tasks] and one new coroutine for every pool
    member that the ledger entry does not hold are handed to
    [asyncio.wait], the entry records the new ones, and [get_blob]
    suspends. *)
Lemma loop_head_pass (st : state) (b : BlobFile) :
  current_blob st = Some b → lock st = false →
  get_is_verified b st = false →
  (snd (loop_head st) = Suspend L172 ∨ snd (loop_head st) = Suspend L173)
  ∧ tasks (fst (loop_head st)) = []
  ∧ scheduled (fst (loop_head st))
    = scheduled st
      ++ rev (tasks st ++ unasked (ledger st (blob_hash b)) (elements (connections st)))
  ∧ ledger (fst (loop_head st)) (blob_hash b)
    = ledger st (blob_hash b)
      ++ unasked (ledger st (blob_hash b)) (elements (connections st))
  ∧ calls (fst (loop_head st)) = calls st
  ∧ connections (fst (loop_head st)) = connections st
  ∧ current_blob (fst (loop_head st)) = Some b.
Proof.
  intros Hb Hl Hv. unfold loop_head. rewrite Hb, Hv.
  destruct (negb (has_peers st) && bool_decide (connections st ≠ ∅)) eqn:Hfirst.
  { destruct (update_launch_pass st b Hb) as (st2 & -> & Hrest). exact Hrest. }
  destruct (has_peers st) eqn:Hh.
  - set (st1 := set_has_peers false st).
    destruct (update_requests_spec st1 b) as (st2 & Hu & Hs & Ht & Hled & _); [done|].
    rewrite Hu. cbn [and_then].
    destruct Hs as (Hcn & Hhp & Hb2 & Hl2 & _ & _ & _ & Hcalls).
    assert (lock st2 = false) as -> by (rewrite Hl2; exact Hl).
    unfold after_lock. set (st3 := set_lock false _).
    destruct (update_launch_pass st3 b) as (st4 & -> & Hc & Ht4 & Hs4 & Hl4 & Hc4 & Hcn4 & Hb4);
      [change (current_blob st2 = Some b); rewrite Hb2; exact Hb|].
    cbn [and_then].
    change (tasks st3) with (tasks st2) in Hs4.
    change (scheduled st3) with (scheduled st2) in Hs4.
    change (ledger st3 (blob_hash b)) with (ledger st2 (blob_hash b)) in Hs4, Hl4.
    change (connections st3) with (connections st2) in Hs4, Hl4, Hcn4.
    change (calls st3) with (calls st2) in Hc4.
    change (connections st1) with (connections st) in *.
    change (ledger st1 (blob_hash b)) with (ledger st (blob_hash b)) in *.
    change (tasks st1) with (tasks st) in Ht.
    rewrite Hcn, Hled, unasked_after_asking, app_nil_r in Hs4, Hl4.
    rewrite (update_requests_scheduled st1 st2 Hu), Ht in Hs4.
    split_and!; try done; try congruence. by rewrite Hc4, Hcalls.
  - simpl in Hfirst. apply bool_decide_eq_false in Hfirst.
    assert (connections st = ∅) as Hemp.
    { destruct (decide (connections st = ∅)) as [?|Hne]; [done|]. by destruct Hfirst. }
    rewrite Hemp, elements_empty. unfold unasked. rewrite filter_nil, !app_nil_r.
    destruct (launch_tasks_spec st) as (Hc & Ht2 & Hcs & Hcn & _ & Hr & Hb2 & _).
    injection Hcs as Hcalls Hsch.
    split_and!; try done.
    + unfold ledger. by rewrite Hr.
    + congruence.
    + congruence.
Qed.

(** The first segment of [get_blob] for an unverified chunk with the lock
    free. *)
Lemma get_blob_pass (h : string) (len : option Z) (st : state) :
  lock st = false →
  get_is_verified (blob_manager_get_blob h len) st = false →
  (snd (get_blob h len st) = Suspend L172 ∨ snd (get_blob h len st) = Suspend L173)
  ∧ tasks (fst (get_blob h len st)) = []
  ∧ scheduled (fst (get_blob h len st))
    = scheduled st
      ++ rev (tasks st ++ unasked (ledger st h) (elements (connections st)))
  ∧ ledger (fst (get_blob h len st)) h
    = ledger st h ++ unasked (ledger st h) (elements (connections st))
  ∧ calls (fst (get_blob h len st)) = calls st
  ∧ connections (fst (get_blob h len st)) = connections st
  ∧ current_blob (fst (get_blob h len st)) = Some (blob_manager_get_blob h len).
Proof.
  intros Hl Hv. unfold get_blob, enter. rewrite Hl.
  set (b := blob_manager_get_blob h len) in *.
  set (st3 := set_lock false _).
  change (current_blob st3) with (Some b). cbv iota beta.
  change (get_is_verified b st3) with (get_is_verified b st). rewrite Hv.
  destruct (update_requests_spec st3 b) as (st4 & Hu & Hs & Ht & Hled & _); [done|].
  rewrite Hu. cbn [and_then].
  destruct Hs as (Hcn & _ & Hb4 & Hl4 & _ & _ & Hv4 & Hcalls).
  destruct (loop_head_pass st4 b) as (Hc & Ht5 & Hs5 & Hl5 & Hc5 & Hcn5 & Hb5).
  { by rewrite Hb4. }
  { by rewrite Hl4. }
  { unfold get_is_verified in *. by rewrite Hv4. }
  change (blob_hash b) with h in *.
  change (connections st3) with (connections st) in *.
  change (ledger st3 h) with (ledger st h) in *.
  change (tasks st3) with (tasks st) in Ht.
  rewrite Hcn, Hled, unasked_after_asking, app_nil_r in Hs5, Hl5.
  rewrite (update_requests_scheduled st3 st4 Hu), Ht in Hs5.
  split_and!; try done; try congruence. by rewrite Hc5, Hcalls.
Qed.

End Passes.

(** * Relations kept by the segments of [get_blob] *)

Section SegmentRelation.
Import Downloader.

Variable R : state → state → Prop.
Hypothesis R_refl : ∀ st, R st st.
Hypothesis R_trans : ∀ st1 st2 st3, R st1 st2 → R st2 st3 → R st1 st3.
Hypothesis R_update : ∀ st st', _update_requests st = Ok st' → R st st'.
Hypothesis R_launch : ∀ st, R st (fst (launch_tasks st)).
Hypothesis R_clear : ∀ st, R st (set_has_peers false st).
Hypothesis R_lock : ∀ st l, R st (set_lock l st).

Lemma and_then_rel (st : state) (k : state → state * ctl) :
  (∀ st', R st' (fst (k st'))) →
  R st (fst (and_then st (_update_requests st) k)).
Proof.
  intros Hk. destruct (_update_requests st) as [st'|e] eqn:Hu; simpl; [|done].
  eapply R_trans; [by apply R_update|apply Hk].
Qed.

Lemma after_lock_rel (st : state) : R st (fst (after_lock st)).
Proof.
  unfold after_lock.
  eapply R_trans; [apply (R_lock st true)|].
  eapply R_trans; [apply R_clear|].
  eapply R_trans; [apply (R_lock _ false)|].
  apply and_then_rel. apply R_launch.
Qed.

Lemma loop_head_rel (st : state) : R st (fst (loop_head st)).
Proof.
  unfold loop_head. destruct (current_blob st) as [b|]; [|done].
  destruct (get_is_verified b st); [done|].
  destruct (negb (has_peers st) && bool_decide (connections st ≠ ∅)).
  { apply and_then_rel. apply R_launch. }
  destruct (has_peers st); [|apply R_launch].
  eapply R_trans; [apply R_clear|].
  apply and_then_rel. intros st2.
  destruct (lock st2); [done|]. apply after_lock_rel.
Qed.

(** From the state in which [enter] has set the current chunk. *)
Lemma enter_rel (h : string) (len : option Z) (st : state) :
  R (set_lock false
       (set_current_blob (Some (blob_manager_get_blob h len)) (set_lock true st)))
    (fst (enter h len st)).
Proof.
  unfold enter. set (st3 := set_lock false _).
  change (current_blob st3) with (Some (blob_manager_get_blob h len)).
  cbv iota beta.
  destruct (get_is_verified _ st3); [done|].
  apply and_then_rel. apply loop_head_rel.
Qed.

Lemma resume_rel (k : pc) (st : state) :
  (∀ h len, k ≠ L142 h len) → R st (fst (resume k st)).
Proof.
  intros Hk. unfold resume. destruct (cancel_requested st); [done|].
  destruct k as [h len| | |].
  - by destruct (Hk h len).
  - destruct (lock st); [done|]. apply after_lock_rel.
  - done.
  - destruct (current_blob st) as [b|]; [|done].
    destruct (get_is_verified b st); [done|]. apply loop_head_rel.
Qed.

Hypothesis R_start : ∀ st, R st (start_scheduled st).
Variable allowed : event → bool.
Hypothesis R_env : ∀ st e, allowed e = true → R st (env_step st e).

Lemma env_steps_rel (es : list event) (st : state) :
  forallb allowed es = true → R st (env_steps st es).
Proof.
  revert st. induction es as [|e es IH]; intros st Hes; [done|].
  simpl in Hes. apply andb_prop in Hes as [He Hes]. simpl.
  eapply R_trans; [by apply R_env|by apply IH].
Qed.

Lemma run_rel (b : BlobFile) (sched : list (list event)) (c : state * ctl) :
  good b c → forallb (forallb allowed) sched = true →
  R (fst c) (snd (run sched c)).
Proof.
  revert c. induction sched as [|es sched IH]; intros [st [b0|e|k]] Hg Hs;
    cbn [run fst snd]; try done.
  simpl in Hs. apply andb_prop in Hs as [Hes Hs].
  eapply R_trans; [by apply env_steps_rel|].
  eapply R_trans; [apply R_start|].
  eapply R_trans; [apply (resume_rel k)|].
  - destruct Hg as [_ Hk]. simpl in Hk. intros h len ->. done.
  - apply IH; [by apply batch_good|done].
Qed.

(** A whole acquisition from an idle state, seen from the state in which
    the current chunk has been set. *)
Lemma get_blob_run_rel (sched : list (list event)) (h : string) (len : option Z)
  (st : state) :
  Idle st → forallb (forallb allowed) sched = true →
  R (set_current_blob (Some (blob_manager_get_blob h len)) st)
    (snd (get_blob_run sched h len st)).
Proof.
  intros HI Hs. unfold get_blob_run.
  pose proof (get_blob_good h len st HI) as Hg.
  assert (set_lock false
            (set_current_blob (Some (blob_manager_get_blob h len)) (set_lock true st))
          = set_current_blob (Some (blob_manager_get_blob h len)) st) as Heq.
  { destruct HI as [(Hl & _) _]. destruct st. simpl in *. by subst. }
  eapply R_trans; [|by eapply run_rel].
  unfold get_blob. destruct HI as [(-> & _) _]. rewrite <- Heq. apply enter_rel.
Qed.

End SegmentRelation.

Section SessionRelation.
Import Downloader.

Variable R : state → state → Prop.
Hypothesis R_refl : ∀ st, R st st.
Hypothesis R_trans : ∀ st1 st2 st3, R st1 st2 → R st2 st3 → R st1 st3.
Hypothesis R_update : ∀ st st', _update_requests st = Ok st' → R st st'.
Hypothesis R_launch : ∀ st, R st (fst (launch_tasks st)).
Hypothesis R_clear : ∀ st, R st (set_has_peers false st).
Hypothesis R_lock : ∀ st l, R st (set_lock l st).
Hypothesis R_start : ∀ st, R st (start_scheduled st).
Hypothesis R_current :
  ∀ st b, tasks st = [] → scheduled st = [] →
          R st (set_current_blob (Some b) st).
Variable allowed : event → bool.
Hypothesis R_env : ∀ st e, allowed e = true → R st (env_step st e).

Lemma acquisition_rel (a : acquisition) (st : state) :
  Idle st → acq_allowed allowed a = true →
  R st (snd (get_blob_run (acq_sched a) (acq_hash a) (acq_length a)
               (env_steps st (acq_before a)))).
Proof.
  intros HI Ha. apply andb_prop in Ha as [Hb Hs].
  pose proof (Idle_env_steps (acq_before a) st HI) as HI'.
  eapply R_trans; [by apply (env_steps_rel R R_refl R_trans allowed R_env)|].
  eapply R_trans; [apply R_current; [apply HI'|apply HI']|].
  by apply (get_blob_run_rel R R_refl R_trans R_update R_launch R_clear R_lock
              R_start allowed R_env).
Qed.

Lemma acquisition_Idle (a : acquisition) (st : state) :
  Idle st →
  Idle (snd (get_blob_run (acq_sched a) (acq_hash a) (acq_length a)
               (env_steps st (acq_before a)))).
Proof.
  intros HI. pose proof (Idle_env_steps (acq_before a) st HI) as HI1. split.
  - unfold get_blob_run.
    apply (run_good (blob_manager_get_blob (acq_hash a) (acq_length a))).
    by apply get_blob_good.
  - apply get_blob_run_idle, HI1.
Qed.

Lemma session_rel (acqs : list acquisition) (st : state) :
  Idle st → forallb (acq_allowed allowed) acqs = true → R st (session acqs st).
Proof.
  revert st. induction acqs as [|a acqs IH]; intros st HI Hall; [done|].
  simpl in Hall. apply andb_prop in Hall as [Ha Hall].
  pose proof (acquisition_rel a st HI Ha) as Hr.
  pose proof (acquisition_Idle a st HI) as HI'.
  simpl.
  destruct (get_blob_run _ _ _ _) as [[b|e|k] st']; simpl in *; try done.
  eapply R_trans; [exact Hr|]. by apply IH.
Qed.

End SessionRelation.

(** * Further facts about the scheduler *)

Section SchedulerFacts.
Import Downloader.

Lemma update_requests_inv (st st' : state) :
  _update_requests st = Ok st' →
  ∃ b, current_blob st = Some b
    ∧ same_pool st st'
    ∧ tasks st' = tasks st
                  ++ unasked (ledger st (blob_hash b)) (elements (connections st))
    ∧ ledger st' (blob_hash b)
      = ledger st (blob_hash b)
        ++ unasked (ledger st (blob_hash b)) (elements (connections st))
    ∧ (∀ h', h' ≠ blob_hash b → ledger st' h' = ledger st h').
Proof.
  intros Hu. destruct (current_blob st) as [b|] eqn:Hb;
    [|by rewrite update_requests_None in Hu].
  destruct (update_requests_spec st b Hb) as (st2 & Hu2 & Hrest).
  rewrite Hu in Hu2. injection Hu2 as <-. by exists b.
Qed.

Lemma pending_requested_update (st st' : state) (b : BlobFile) :
  current_blob st = Some b → same_pool st st' →
  scheduled st' = scheduled st →
  tasks st' = tasks st ++ unasked (ledger st (blob_hash b)) (elements (connections st)) →
  requested st' ++ pending st'
  = (requested st ++ pending st)
    ++ map (λ p, (p, blob_hash b))
         (unasked (ledger st (blob_hash b)) (elements (connections st))).
Proof.
  intros Hb (_ & _ & Hb' & _ & _ & _ & _ & Hc) Hs Ht.
  unfold requested, pending. rewrite Hc, Hb', Hb, Hs, Ht, !map_app.
  by rewrite !app_assoc.
Qed.

Lemma pending_requested_launch (st : state) :
  requested (fst (launch_tasks st)) ++ pending (fst (launch_tasks st))
  ≡ₚ requested st ++ pending st.
Proof.
  destruct (pending_launch st) as [-> Hp]. by rewrite Hp.
Qed.

Lemma ledger_launch (st : state) (h : string) :
  ledger (fst (launch_tasks st)) h = ledger st h.
Proof.
  destruct (launch_tasks_spec st) as (_ & _ & _ & _ & _ & Hr & _).
  unfold ledger. by rewrite Hr.
Qed.


(** Only [stop] touches the two task attributes. *)
Lemma env_step_task_attrs (st : state) (e : event) :
  (accumulator_task (env_step st e), download_task (env_step st e))
  = if is_stop e then stop_tasks st else (accumulator_task st, download_task st).
Proof.
  destruct e as [p|p|h| |]; unfold env_step, is_stop.
  - unfold _accumulate_connections. destruct (lock st); simpl; [done|].
    destruct (has_peers st); done.
  - destruct (lock st) eqn:Hl.
    + by rewrite request_blob_locked.
    + destruct (request_blob_timeout p st Hl)
        as (st' & Heq & _ & _ & _ & _ & _ & _ & Ha & Hd & _).
      rewrite Heq. simpl. by rewrite Ha, Hd.
  - done.
  - apply stop_task_fields.
  - by destruct (start_next_spec st) as (_ & _ & _ & _ & _ & _ & _ & _ & -> & -> & _).
Qed.

End SchedulerFacts.

Section Untouched.
Import Downloader.

Lemma untouched_refl (st : state) : untouched st st.
Proof. by split_and!. Qed.

Lemma untouched_trans (st1 st2 st3 : state) :
  untouched st1 st2 → untouched st2 st3 → untouched st1 st3.
Proof.
  intros (? & ? & ? & ?) (? & ? & ? & ?). split_and!; congruence.
Qed.

Lemma untouched_update (st st' : state) :
  _update_requests st = Ok st' → untouched st st'.
Proof.
  intros Hu. apply update_requests_inv in Hu as (b & _ & Hs & _).
  destruct Hs as (? & _ & _ & _ & ? & ? & ? & _). by split_and!.
Qed.

Lemma untouched_launch (st : state) : untouched st (fst (launch_tasks st)).
Proof.
  destruct (launch_tasks_spec st) as (_ & _ & _ & ? & _ & _ & _ & _ & ? & ? & ?).
  by split_and!.
Qed.

Lemma untouched_clear (st : state) : untouched st (set_has_peers false st).
Proof. by split_and!. Qed.

Lemma untouched_lock (st : state) (l : bool) : untouched st (set_lock l st).
Proof. by split_and!. Qed.

Lemma untouched_resume (k : pc) (st : state) : untouched st (fst (resume k st)).
Proof.
  destruct k as [h len| | |].
  - unfold resume. destruct (cancel_requested st); [apply untouched_refl|].
    destruct (lock st); [apply untouched_refl|].
    eapply untouched_trans;
      [|exact (enter_rel untouched untouched_refl untouched_trans untouched_update
                 untouched_launch untouched_clear untouched_lock h len st)].
    by split_and!.
  - by apply (resume_rel untouched untouched_refl untouched_trans untouched_update
                untouched_launch untouched_clear untouched_lock).
  - by apply (resume_rel untouched untouched_refl untouched_trans untouched_update
                untouched_launch untouched_clear untouched_lock).
  - by apply (resume_rel untouched untouched_refl untouched_trans untouched_update
                untouched_launch untouched_clear untouched_lock).
Qed.

End Untouched.

(** * Further properties of the generator junction *)

Section JunctionOrder.
Import Junction.

Lemma iterate_all_yields (g : gen) (xs : list item) (J : junction) :
  maxsize J = 0 →
  iterate_all g (map Yields xs) J
  = (mkJunction (queue J ++ xs) (maxsize J) (handles J) (running_iterators J), None).
Proof.
  revert J. induction xs as [|x xs IH]; intros J Hm; simpl.
  - rewrite app_nil_r. by destruct J.
  - unfold put_nowait. rewrite Hm. simpl. rewrite IH by done. simpl.
    by rewrite <- app_assoc.
Qed.

Lemma anext_many_take (n : nat) (J : junction) :
  running J = true → n ≤ length (queue J) →
  anext_many n J
  = (take n (queue J),
     mkJunction (drop n (queue J)) (maxsize J) (handles J) (running_iterators J)).
Proof.
  revert J. induction n as [|n IH]; intros J Hr Hn; simpl.
  - by destruct J.
  - unfold __anext__. rewrite Hr. destruct (queue J) as [|x q] eqn:Hq; simpl in *; [lia|].
    rewrite IH; [done|done|simpl; lia].
Qed.

Lemma iterate_other_flag (g g' : gen) (s : gen_step) (J : junction) :
  g' ≠ g →
  running_iterators (fst (iterate g s J)) !! g' = running_iterators J !! g'.
Proof.
  intros Hne. destruct s as [x| |e]; simpl.
  - unfold put_nowait. by destruct (_ && _).
  - by rewrite lookup_insert_ne.
  - done.
Qed.

Lemma exhaust_all_flags (gs : list gen) (J : junction) (g : gen) :
  running_iterators (foldl (λ J g, fst (iterate g Exhausted J)) J gs) !! g
  = if bool_decide (g ∈ gs) then Some false else running_iterators J !! g.
Proof.
  revert J. induction gs as [|g0 gs IH]; intros J; simpl; [done|].
  rewrite IH. case_bool_decide as Hin.
  - rewrite bool_decide_eq_true_2; [done|]. by right.
  - simpl. destruct (decide (g = g0)) as [->|Hne].
    + rewrite lookup_insert_eq. rewrite bool_decide_eq_true_2; [done|]. by left.
    + rewrite lookup_insert_ne by done. rewrite bool_decide_eq_false_2; [done|].
      intros [?|?]%elem_of_cons; done.
Qed.

End JunctionOrder.

Section JunctionExtras.
Import Junction.

(** X1: with the unbounded queue and a generator marked running, the items
    that a generator yields are handed out by [__anext__] after the items
    already queued and in the order in which they were yielded. *)
Theorem junction_hands_out_in_order
  (g : gen) (xs : list item) (J : junction) (n : nat) :
  maxsize J = 0 → running J = true → n ≤ length (queue J ++ xs) →
  fst (anext_many n (fst (iterate_all g (map Yields xs) J)))
  = take n (queue J ++ xs).
Proof.
  intros Hm Hr Hn. rewrite iterate_all_yields by done. simpl.
  rewrite anext_many_take; [done| |done].
  unfold running in *. done.
Qed.

Lemma junction_hands_out_in_order_witness :
  fst (anext_many 3
         (fst (iterate_all 1 (map Yields [8; 9])
                 (fst (iterate_all 0 [Yields 7] (add_generator 1 (add_generator 0 (new 0))))))))
  = [7; 8; 9].
Proof.
  apply (junction_hands_out_in_order 1 [8; 9]
           (fst (iterate_all 0 [Yields 7] (add_generator 1 (add_generator 0 (new 0))))) 3).
  - reflexivity.
  - vm_compute. reflexivity.
  - vm_compute. lia.
Defined.

(** X2: once every registered generator has been exhausted, in any order
    and whatever is left in the queue, [__anext__] raises
    [StopAsyncIteration]. *)
Theorem junction_completes_when_all_exhausted (J : junction) (gs : list gen) :
  dom (running_iterators J) ⊆ list_to_set gs →
  __anext__ (foldl (λ J g, fst (iterate g Exhausted J)) J gs)
  = Raising StopAsyncIteration.
Proof.
  intros Hdom. apply anext_stops_iff, running_false. intros g.
  rewrite exhaust_all_flags. case_bool_decide as Hin; [done|].
  intros Hg. apply Hin. apply (elem_of_list_to_set (C := gset gen)), Hdom.
  apply elem_of_dom. eauto.
Qed.

Lemma junction_completes_when_all_exhausted_witness :
  __anext__ (foldl (λ J g, fst (iterate g Exhausted J))
               (fst (iterate_all 0 [Yields 7] (add_generator 1 (add_generator 0 (new 0)))))
               [1; 0])
  = Raising StopAsyncIteration.
Proof.
  apply (junction_completes_when_all_exhausted
           (fst (iterate_all 0 [Yields 7] (add_generator 1 (add_generator 0 (new 0)))))
           [1; 0]).
  eapply (bool_decide_unpack _). vm_compute. exact I.
Defined.

End JunctionExtras.

(** * Properties of the single-peer downloader *)

Section SinglePeerExtras.
Import Downloader.

(** X3: for a hash that the store reports verified, [get_blob] of the
    single-peer downloader returns the handle without calling the peer,
    whatever the peer would have answered. *)
Theorem single_peer_cache_hit
  (h : string) (len : option Z) (during : list string) (outcome : result unit)
  (st : SinglePeer.state) :
  SinglePeer.get_is_verified (blob_manager_get_blob h len) st = true →
  SinglePeer.get_blob_run h len during outcome st
  = (Ok (blob_manager_get_blob h len), st).
Proof.
  intros Hv. unfold SinglePeer.get_blob_run, SinglePeer.get_blob. by rewrite Hv.
Qed.

Lemma single_peer_cache_hit_witness :
  SinglePeer.get_blob_run "a" None [] (Raise TimeoutError)
    (SinglePeer.mkState 1 {["a"%string]} [])
  = (Ok (blob_manager_get_blob "a" None), SinglePeer.mkState 1 {["a"%string]} []).
Proof.
  apply single_peer_cache_hit. vm_compute. reflexivity.
Defined.

(** X4: for an unverified hash, [get_blob] of the single-peer downloader
    sends exactly one request, to its peer and for that handle; an
    exception of the request, a timeout included, is raised to the caller;
    when the request returns, the handle is returned without a second look
    at its verification, so it is unverified if the store did not verify
    it meanwhile. *)
Theorem single_peer_request_outcome_surfaces
  (h : string) (len : option Z) (during : list string) (outcome : result unit)
  (st : SinglePeer.state) :
  SinglePeer.get_is_verified (blob_manager_get_blob h len) st = false →
  SinglePeer.calls (snd (SinglePeer.get_blob_run h len during outcome st))
  = SinglePeer.calls st
    ++ [RequestBlobs (SinglePeer.peer st) (Some (blob_manager_get_blob h len))]
  ∧ (∀ e, outcome = Raise e →
          fst (SinglePeer.get_blob_run h len during outcome st) = Raise e)
  ∧ (outcome = Ok tt →
     fst (SinglePeer.get_blob_run h len during outcome st)
     = Ok (blob_manager_get_blob h len)
     ∧ (h ∉ during →
        SinglePeer.get_is_verified (blob_manager_get_blob h len)
          (snd (SinglePeer.get_blob_run h len during outcome st)) = false)).
Proof.
  intros Hv. unfold SinglePeer.get_blob_run, SinglePeer.get_blob. rewrite Hv. simpl.
  split_and!.
  - by destruct outcome.
  - by intros e ->.
  - intros ->. simpl. split; [done|]. intros Hd.
    unfold SinglePeer.get_is_verified in *. simpl in *.
    apply bool_decide_eq_false in Hv. apply bool_decide_eq_false.
    rewrite elem_of_union, elem_of_list_to_set. tauto.
Qed.

Lemma single_peer_request_outcome_surfaces_witness :
  fst (SinglePeer.get_blob_run "a" None [] (Raise TimeoutError)
         (SinglePeer.mkState 1 ∅ []))
  = Raise TimeoutError.
Proof.
  destruct (single_peer_request_outcome_surfaces "a" None [] (Raise TimeoutError)
              (SinglePeer.mkState 1 ∅ [])) as (_ & Hr & _).
  - vm_compute. reflexivity.
  - by apply Hr.
Defined.

(** X5: [download] of the single-peer downloader disconnects its peer
    exactly once after the assembly and the callback, whatever they did,
    and then always ends by raising [NotImplementedError]: the [stop] it
    calls in its [finally] clause is the one of [BaseStreamDownloader]. *)
Theorem single_peer_download_always_raises
  (assemble_decrypted_stream finished_callback
     : SinglePeer.state → result unit * SinglePeer.state)
  (st : SinglePeer.state) :
  fst (SinglePeer.download assemble_decrypted_stream finished_callback st)
  = Raise (OtherError "NotImplementedError")
  ∧ SinglePeer.calls
      (snd (SinglePeer.download assemble_decrypted_stream finished_callback st))
    = SinglePeer.calls
        (snd (SinglePeer.download_body assemble_decrypted_stream finished_callback st))
      ++ [DisconnectTcp
            (SinglePeer.peer
               (snd (SinglePeer.download_body assemble_decrypted_stream
                       finished_callback st)))].
Proof.
  unfold SinglePeer.download, SinglePeer.try_finally.
  destruct (SinglePeer.download_body _ _ st) as [r st1]. done.
Qed.

End SinglePeerExtras.

(** * The relations, one by one *)

Section LedgerGrows.
Import Downloader.

Lemma ledger_same (st st' : state) :
  requests st' = requests st → ∀ h, ledger st' h = ledger st h.
Proof. intros Hr h. unfold ledger. by rewrite Hr. Qed.

Lemma ledger_grows_refl (st : state) : ledger_grows st st.
Proof. by intros h. Qed.

Lemma ledger_grows_trans (st1 st2 st3 : state) :
  ledger_grows st1 st2 → ledger_grows st2 st3 → ledger_grows st1 st3.
Proof. intros H1 H2 h. etrans; [apply H1|apply H2]. Qed.

Lemma ledger_grows_same (st st' : state) :
  requests st' = requests st → ledger_grows st st'.
Proof. intros Hr h. by rewrite (ledger_same st st' Hr). Qed.

Lemma ledger_grows_update (st st' : state) :
  _update_requests st = Ok st' → ledger_grows st st'.
Proof.
  intros Hu. apply update_requests_inv in Hu as (b & _ & _ & _ & Hl & Ho).
  intros h. destruct (decide (h = blob_hash b)) as [->|Hne].
  - rewrite Hl. by apply prefix_app_r.
  - by rewrite Ho.
Qed.

Lemma ledger_grows_launch (st : state) : ledger_grows st (fst (launch_tasks st)).
Proof. intros h. by rewrite ledger_launch. Qed.

Lemma ledger_grows_env (st : state) (e : event) :
  any_event e = true → ledger_grows st (env_step st e).
Proof.
  intros _. apply ledger_grows_same.
  by destruct (env_step_frame st e) as (_ & -> & _).
Qed.

Lemma ledger_grows_loop_head (st : state) : ledger_grows st (fst (loop_head st)).
Proof.
  apply (loop_head_rel ledger_grows ledger_grows_refl ledger_grows_trans
           ledger_grows_update ledger_grows_launch).
  - intros st0. by apply ledger_grows_same.
  - intros st0 l. by apply ledger_grows_same.
Qed.

Lemma all_events_allowed (acqs : list acquisition) :
  forallb (acq_allowed any_event) acqs = true.
Proof.
  induction acqs as [|a acqs IH]; [done|]. simpl. rewrite IH, andb_true_r.
  unfold acq_allowed. apply andb_true_intro. split.
  - by induction (acq_before a).
  - induction (acq_sched a) as [|es s IHs]; [done|]. simpl. rewrite IHs, andb_true_r.
    by induction es.
Qed.

Lemma ledger_grows_start (st : state) : ledger_grows st (start_scheduled st).
Proof.
  apply ledger_grows_same.
  by destruct (start_scheduled_spec st) as (_ & _ & _ & _ & _ & -> & _).
Qed.

Lemma ledger_grows_session (acqs : list acquisition) (st : state) :
  Idle st → ledger_grows st (session acqs st).
Proof.
  intros HI.
  apply (session_rel ledger_grows ledger_grows_refl ledger_grows_trans
           ledger_grows_update ledger_grows_launch) with (allowed := any_event);
    try done.
  - intros st0. by apply ledger_grows_same.
  - intros st0 l. by apply ledger_grows_same.
  - apply ledger_grows_start.
  - intros st0 b _ _. by apply ledger_grows_same.
  - apply ledger_grows_env.
  - apply all_events_allowed.
Qed.

End LedgerGrows.

Section LedgerSound.
Import Downloader.

Lemma keeps_refl (P : state → Prop) (st : state) : keeps P st st.
Proof. by intros H. Qed.

Lemma keeps_trans (P : state → Prop) (st1 st2 st3 : state) :
  keeps P st1 st2 → keeps P st2 st3 → keeps P st1 st3.
Proof. intros H1 H2 H. by apply H2, H1. Qed.

Lemma ledger_sound_update (st st' : state) :
  _update_requests st = Ok st' → keeps ledger_sound st st'.
Proof.
  intros Hu Hs p h Hp.
  pose proof (update_requests_scheduled st st' Hu) as Hsch.
  apply update_requests_inv in Hu as (b & Hb & Hsame & Ht & Hl & Ho).
  rewrite (pending_requested_update st st' b Hb Hsame Hsch Ht).
  destruct (decide (h = blob_hash b)) as [->|Hne].
  - rewrite Hl in Hp. apply elem_of_app in Hp as [Hp|Hp].
    + apply elem_of_app. left. by apply Hs.
    + apply elem_of_app. right. apply list_elem_of_fmap. by exists p.
  - rewrite Ho in Hp by done. apply elem_of_app. left. by apply Hs.
Qed.

Lemma ledger_sound_launch (st : state) :
  keeps ledger_sound st (fst (launch_tasks st)).
Proof.
  intros Hs p h Hp. rewrite pending_requested_launch.
  apply Hs. by rewrite ledger_launch in Hp.
Qed.

Lemma ledger_sound_ext (st st' : state) :
  calls st' = calls st → tasks st' = tasks st → scheduled st' = scheduled st →
  current_blob st' = current_blob st → requests st' = requests st →
  keeps ledger_sound st st'.
Proof.
  intros Hc Ht Hs Hb Hr. unfold keeps, ledger_sound, requested, pending, ledger.
  by rewrite Hc, Ht, Hs, Hb, Hr.
Qed.

Lemma ledger_sound_current (st : state) (b : BlobFile) :
  tasks st = [] → scheduled st = [] →
  keeps ledger_sound st (set_current_blob (Some b) st).
Proof.
  intros Ht Hsch Hs p h Hp. specialize (Hs p h Hp).
  unfold requested, pending in *. simpl. rewrite Ht, Hsch in *.
  destruct (current_blob st); simpl in *; by rewrite app_nil_r in *.
Qed.

Lemma ledger_sound_start (st : state) :
  keeps ledger_sound st (start_scheduled st).
Proof.
  intros Hs p h Hp. rewrite start_scheduled_requested. apply Hs.
  unfold ledger in *.
  by destruct (start_scheduled_spec st) as (_ & _ & _ & _ & _ & <- & _).
Qed.

Lemma ledger_sound_env (st : state) (e : event) :
  any_event e = true → keeps ledger_sound st (env_step st e).
Proof.
  intros _. destruct (env_step_frame st e) as (Ht & Hr & Hb & _ & Hq & _).
  unfold keeps, ledger_sound, ledger. by rewrite Hr, Hq.
Qed.

Lemma ledger_sound_init : ledger_sound init.
Proof. intros p h Hp. unfold ledger in Hp. simpl in Hp. by apply elem_of_nil in Hp. Qed.

Lemma ledger_sound_session (acqs : list acquisition) :
  ledger_sound (session acqs init).
Proof.
  apply (session_rel (keeps ledger_sound) (keeps_refl _) (keeps_trans _)
           ledger_sound_update ledger_sound_launch) with (allowed := any_event).
  - intros st0. by apply ledger_sound_ext.
  - intros st0 l. by apply ledger_sound_ext.
  - apply ledger_sound_start.
  - apply ledger_sound_current.
  - apply ledger_sound_env.
  - apply Idle_init.
  - apply all_events_allowed.
  - apply ledger_sound_init.
Qed.

End LedgerSound.

(** * Further properties of the downloader *)

Section DispatchExtras.
Import Downloader.

Lemma ask_all_noop (h : string) (l : list peer) (st : state) :
  (∀ p, p ∈ l → p ∈ ledger st h) → foldl (ask_peer h) st l = st.
Proof.
  induction l as [|p l IH]; intros Hall; [done|]. simpl.
  unfold ask_peer at 2. rewrite bool_decide_eq_true_2.
  - apply IH. intros q Hq. apply Hall. by right.
  - apply Hall. by left.
Qed.

Lemma ask_peer_key (h : string) (st : state) (p : peer) :
  is_Some (requests st !! h) → is_Some (requests (ask_peer h st p) !! h).
Proof.
  intros Hk. unfold ask_peer. case_bool_decide; [done|]. simpl.
  rewrite lookup_insert_eq. eauto.
Qed.

Lemma ask_all_key (h : string) (l : list peer) (st : state) :
  is_Some (requests st !! h) → is_Some (requests (foldl (ask_peer h) st l) !! h).
Proof.
  revert st. induction l as [|p l IH]; intros st Hk; [done|].
  simpl. by apply IH, ask_peer_key.
Qed.

Lemma update_requests_key (st st' : state) (b : BlobFile) :
  current_blob st = Some b → _update_requests st = Ok st' →
  is_Some (requests st' !! blob_hash b).
Proof.
  intros Hb Hu. unfold _update_requests in Hu. rewrite Hb in Hu.
  injection Hu as <-. apply ask_all_key.
  destruct (requests st !! blob_hash b) eqn:Hr; [by rewrite Hr|].
  simpl. rewrite lookup_insert_eq. eauto.
Qed.

(** X6: a second pass of [_update_requests] right after a first one changes
    nothing: it creates no coroutine and leaves the ledger as it is. *)
Theorem update_requests_idempotent (st st1 : state) :
  _update_requests st = Ok st1 → _update_requests st1 = Ok st1.
Proof.
  intros Hu.
  destruct (update_requests_inv st st1 Hu) as (b & Hb & Hs & _ & Hl & _).
  pose proof (update_requests_key st st1 b Hb Hu) as [l Hk].
  assert (current_blob st1 = Some b) as Hb1.
  { destruct Hs as (_ & _ & -> & _). done. }
  assert (connections st1 = connections st) as Hc by apply Hs.
  unfold _update_requests. rewrite Hb1, Hk. f_equal.
  apply ask_all_noop. intros p Hp. rewrite Hl, Hc in *.
  destruct (decide (p ∈ ledger st (blob_hash b))) as [Hin|Hnin].
  - apply elem_of_app. by left.
  - apply elem_of_app. right. by apply elem_of_unasked.
Qed.

Lemma update_requests_idempotent_witness :
  _update_requests
    (fst (get_blob "a" None (env_steps init [Connected 1; Connected 2])))
  = Ok (fst (get_blob "a" None (env_steps init [Connected 1; Connected 2]))).
Proof.
  apply (update_requests_idempotent
           (fst (get_blob "a" None (env_steps init [Connected 1; Connected 2])))).
  vm_compute. reflexivity.
Defined.

Lemma accumulate_connections_connected (p : peer) (st : state) :
  lock st = false →
  _accumulate_connections p true st
  = Some (mkState (connections st ∪ {[p]}) true (tasks st) (requests st)
            (current_blob st) false (accumulator_task st) (download_task st)
            (verified st) (calls st) (scheduled st)).
Proof.
  intros Hl. unfold _accumulate_connections. rewrite Hl.
  destruct st as [c hp t r cb l a d v cs sc]. by destruct hp.
Qed.

(** X7: with the lock free, a peer that connected is in the pool and
    [has_peers] is set; when the peer finder yields the same peer again the
    state does not change; a peer that failed to connect changes nothing. *)
Theorem accumulate_connections_is_idempotent (p : peer) (st : state) :
  lock st = false →
  ∃ st1, _accumulate_connections p true st = Some st1
    ∧ p ∈ connections st1
    ∧ has_peers st1 = true
    ∧ _accumulate_connections p true st1 = Some st1
    ∧ _accumulate_connections p false st = Some st.
Proof.
  intros Hl. rewrite (accumulate_connections_connected p st Hl).
  eexists. split; [reflexivity|].
  split; [cbn [connections]; apply elem_of_union_r, elem_of_singleton; reflexivity|].
  split; [reflexivity|]. split; [|reflexivity].
  rewrite accumulate_connections_connected by reflexivity.
  cbn [connections tasks requests current_blob accumulator_task download_task
       verified calls scheduled].
  assert (connections st ∪ {[p]} ∪ {[p]} = connections st ∪ {[p]}) as ->; [|reflexivity].
  generalize (connections st). intros c. set_solver.
Qed.

Lemma accumulate_connections_is_idempotent_witness :
  ∃ st1, _accumulate_connections 1 true init = Some st1
    ∧ 1 ∈ connections st1
    ∧ has_peers st1 = true
    ∧ _accumulate_connections 1 true st1 = Some st1
    ∧ _accumulate_connections 1 false init = Some init.
Proof. apply (accumulate_connections_is_idempotent 1 init). reflexivity. Defined.

(** X8: [get_blob] itself never adds or removes a peer, never changes what
    the store reports verified and never touches the two task attributes:
    every segment, the first one and each resumption, leaves the pool, the
    verification state, [accumulator_task] and [download_task] as they
    were. *)
Theorem get_blob_leaves_pool_and_tasks_alone (st : state) :
  (∀ h len, untouched st (fst (get_blob h len st)))
  ∧ (∀ k, untouched st (fst (resume k st))).
Proof.
  split; [|intros k; apply untouched_resume].
  intros h len. unfold get_blob. destruct (lock st); [apply untouched_refl|].
  eapply untouched_trans;
    [|exact (enter_rel untouched untouched_refl untouched_trans untouched_update
               untouched_launch untouched_clear untouched_lock h len st)].
  by split_and!.
Qed.

(** X9: the ledger is never cleared: whatever acquisitions, connections,
    timeouts, verifications and stops follow, every ledger entry keeps the
    peers it holds, in their order, and only gets new peers at its end. *)
Theorem ledger_never_shrinks (acqs more : list acquisition) (h : string) :
  ledger (session acqs init) h `prefix_of` ledger (session more (session acqs init)) h.
Proof.
  apply ledger_grows_session. apply session_Idle, Idle_init.
Qed.

End DispatchExtras.

Section SignalExtras.
Import Downloader.





Lemma has_peers_update (st st' : state) :
  _update_requests st = Ok st' → has_peers st' = has_peers st.
Proof.
  intros Hu. apply update_requests_inv in Hu as (b & _ & Hs & _). apply Hs.
Qed.

Lemma has_peers_launch (st : state) :
  has_peers (fst (launch_tasks st)) = has_peers st.
Proof. by destruct (launch_tasks_spec st) as (_ & _ & _ & _ & -> & _). Qed.

Lemma after_lock_clears (st : state) : has_peers (fst (after_lock st)) = false.
Proof.
  unfold after_lock. set (st3 := set_lock false _).
  destruct (_update_requests st3) as [st4|e] eqn:Hu; simpl; [|done].
  by rewrite has_peers_launch, (has_peers_update st3 st4 Hu).
Qed.

Lemma loop_head_clears (st : state) (k : pc) :
  snd (loop_head st) = Suspend k → has_peers (fst (loop_head st)) = false.
Proof.
  unfold loop_head. destruct (current_blob st) as [b|]; [|done].
  destruct (get_is_verified b st); [done|].
  destruct (has_peers st) eqn:Hh; simpl.
  - set (st1 := set_has_peers false st).
    destruct (_update_requests st1) as [st2|e] eqn:Hu; simpl; [|done].
    destruct (lock st2); simpl.
    + intros _. by rewrite (has_peers_update st1 st2 Hu).
    + intros _. apply after_lock_clears.
  - destruct (bool_decide (connections st ≠ ∅)); simpl.
    + destruct (_update_requests st) as [st2|e] eqn:Hu; simpl; [|done].
      intros _. by rewrite has_peers_launch, (has_peers_update st st2 Hu).
    + intros _. by rewrite has_peers_launch.
Qed.



(** X11: [stop] empties the pool without clearing [has_peers]: a flag that
    was set stays set over an empty pool. *)
Theorem stop_leaves_has_peers_set (st : state) :
  has_peers st = true →
  has_peers (stop st) = true ∧ connections (stop st) = ∅.
Proof.
  intros Hh. split; [|apply stop_connections].
  by destruct (stop_frame st) as (-> & _).
Qed.

Lemma stop_leaves_has_peers_set_witness :
  has_peers (stop (env_steps init [Connected 1])) = true
  ∧ connections (stop (env_steps init [Connected 1])) = ∅.
Proof.
  apply (stop_leaves_has_peers_set (env_steps init [Connected 1])).
  vm_compute. reflexivity.
Defined.

(** X12: whenever a segment of [get_blob] that passed the loop test ends in
    a suspension, [has_peers] is cleared, whether or not the pool holds
    peers: this holds for the first segment and for every resumption from
    the wait on the two signals. *)
Theorem get_blob_suspends_with_has_peers_cleared (st : state) (k : pc) :
  lock st = false →
  (∀ h len, snd (get_blob h len st) = Suspend k →
            has_peers (fst (get_blob h len st)) = false)
  ∧ (snd (resume L173 st) = Suspend k → has_peers (fst (resume L173 st)) = false).
Proof.
  intros Hl. split.
  - intros h len. unfold get_blob, enter. rewrite Hl.
    set (st3 := set_lock false _).
    change (current_blob st3) with (Some (blob_manager_get_blob h len)).
    cbv iota beta. destruct (get_is_verified _ st3); [done|].
    destruct (_update_requests st3) as [st4|e] eqn:Hu; simpl; [|done].
    apply loop_head_clears.
  - unfold resume. destruct (cancel_requested st); [done|].
    destruct (current_blob st) as [b|]; [|done].
    destruct (get_is_verified b st); [done|]. apply loop_head_clears.
Qed.

Lemma get_blob_suspends_with_has_peers_cleared_witness :
  has_peers (env_steps init [Connected 1]) = true
  ∧ has_peers (fst (get_blob "a" None (env_steps init [Connected 1]))) = false
  ∧ elements (connections (fst (get_blob "a" None (env_steps init [Connected 1])))) = [1].
Proof.
  split; [vm_compute; reflexivity|]. split; [|vm_compute; reflexivity].
  destruct (get_blob_suspends_with_has_peers_cleared
              (env_steps init [Connected 1]) L172) as [Hg _]; [reflexivity|].
  apply Hg. vm_compute. reflexivity.
Defined.

End SignalExtras.

Section CoverageExtras.
Import Downloader.

Lemma forallb_any_event (es : list event) : forallb any_event es = true.
Proof. by induction es. Qed.

Lemma elem_of_prefix (l1 l2 : list peer) (p : peer) :
  l1 `prefix_of` l2 → p ∈ l1 → p ∈ l2.
Proof. intros [k ->] Hp. apply elem_of_app. by left. Qed.

Lemma enter_dispatches (h : string) (len : option Z) (st : state) (p : peer) :
  get_is_verified (blob_manager_get_blob h len) st = false →
  p ∈ connections st →
  p ∈ ledger (fst (enter h len st)) h.
Proof.
  intros Hv Hp. unfold enter. set (st3 := set_lock false _).
  change (current_blob st3) with (Some (blob_manager_get_blob h len)).
  cbv iota beta.
  change (get_is_verified (blob_manager_get_blob h len) st3)
    with (get_is_verified (blob_manager_get_blob h len) st).
  rewrite Hv.
  destruct (update_requests_spec st3 (blob_manager_get_blob h len))
    as (st4 & Hu & _ & _ & Hl & _); [done|].
  rewrite Hu. simpl.
  apply (elem_of_prefix (ledger st4 h)); [apply ledger_grows_loop_head|].
  change (blob_hash (blob_manager_get_blob h len)) with h in Hl. rewrite Hl.
  change (connections st3) with (connections st).
  destruct (decide (p ∈ ledger st3 h)) as [Hin|Hnin].
  - apply elem_of_app. by left.
  - apply elem_of_app. right. apply elem_of_unasked. split; [done|].
    by apply elem_of_elements.
Qed.

Lemma ledger_sound_reachable (acqs : list acquisition) (before : list event) :
  ledger_sound (env_steps (session acqs init) before).
Proof.
  apply (env_steps_rel (keeps ledger_sound) (keeps_refl _) (keeps_trans _)
           any_event ledger_sound_env before (session acqs init)
           (forallb_any_event before)).
  apply ledger_sound_session.
Qed.

Lemma ledger_sound_first_segment (h : string) (len : option Z) (st : state) :
  Idle st → ledger_sound st → ledger_sound (fst (get_blob h len st)).
Proof.
  intros [(Hl & Ht & _) Hsch] Hs.
  assert (∀ st, keeps ledger_sound st (set_has_peers false st)) as Hclear
    by (intros st0; by apply ledger_sound_ext).
  assert (∀ st l, keeps ledger_sound st (set_lock l st)) as Hlock
    by (intros st0 l; by apply ledger_sound_ext).
  unfold get_blob. rewrite Hl.
  apply (enter_rel (keeps ledger_sound) (keeps_refl _) (keeps_trans _)
           ledger_sound_update ledger_sound_launch Hclear Hlock h len st).
  apply Hlock.
  apply (ledger_sound_current (set_lock true st)); [done|done|].
  by apply Hlock.
Qed.

(** The requests sent by the time [get_blob] is resumed: those sent before
    the suspension and those of the fetch tasks it handed to the loop. *)
Lemma requested_at_resumption (es : list event) (st : state) :
  tasks st = [] →
  requested (start_scheduled (env_steps st es)) = requested st ++ pending st.
Proof.
  intros Ht.
  destruct (batch_frame es st) as (Ht' & _ & _ & _ & Hq & _ & Hs).
  rewrite <- Hq. unfold pending at 1. rewrite Ht', Ht, Hs. simpl.
  destruct (current_blob _); by rewrite app_nil_r.
Qed.

(** X13: in every state that acquisitions and events can reach, the first
    segment of [get_blob] for an unverified chunk ends in a suspension,
    whether or not the pool holds a peer.  The segment sends nothing
    itself: it hands one fetch task to the event loop for every peer of the
    pool that the ledger entry of the chunk did not hold.  Whatever the
    other tasks do before [get_blob] is resumed, by then exactly one
    request for the chunk has been sent to every peer that was in the
    pool. *)
Theorem get_blob_asks_every_pooled_peer
  (acqs : list acquisition) (before : list event) (h : string) (len : option Z) :
  get_is_verified (blob_manager_get_blob h len)
    (env_steps (session acqs init) before) = false →
  (snd (get_blob h len (env_steps (session acqs init) before)) = Suspend L172
   ∨ snd (get_blob h len (env_steps (session acqs init) before)) = Suspend L173)
  ∧ calls (fst (get_blob h len (env_steps (session acqs init) before)))
    = calls (env_steps (session acqs init) before)
  ∧ scheduled (fst (get_blob h len (env_steps (session acqs init) before)))
    ≡ₚ unasked (ledger (env_steps (session acqs init) before) h)
         (elements (connections (env_steps (session acqs init) before)))
  ∧ ∀ p es,
      p ∈ connections (env_steps (session acqs init) before) →
      count_occ request_eq_dec
        (requested
           (start_scheduled
              (env_steps (fst (get_blob h len (env_steps (session acqs init) before)))
                 es)))
        (p, h) = 1.
Proof.
  intros Hv. set (st := env_steps (session acqs init) before) in *.
  assert (Idle st) as HI by apply Idle_env_steps, session_Idle, Idle_init.
  pose proof (ledger_sound_first_segment h len st HI
                (ledger_sound_reachable acqs before)) as Hsound.
  pose proof (get_blob_good h len st HI) as [HI' _].
  destruct HI as [(Hl & Ht & _) Hsch].
  destruct (get_blob_pass h len st Hl Hv) as (Hc & Ht' & Hs' & _ & Hcalls & _).
  split_and!; [done|done| |].
  - rewrite Hs', Hsch, Ht. simpl. by rewrite <- Permutation_rev.
  - intros p es Hp. rewrite (requested_at_resumption es _ Ht').
    destruct HI' as (_ & _ & Hnd & _).
    apply NoDup_count_occ'; [by apply NoDup_ListNoDup|].
    apply list_elem_of_In. apply Hsound.
    assert (get_blob h len st = enter h len st) as Heq
      by (unfold get_blob; by rewrite Hl).
    rewrite Heq. by apply enter_dispatches.
Qed.

Lemma get_blob_asks_every_pooled_peer_witness :
  scheduled
    (fst (get_blob "b" None
            (env_steps
               (session [mkAcq [Connected 1; Connected 2] "a" None
                           [[BlobVerified "a"]; []]] init)
               [Connected 3])))
  ≡ₚ unasked
       (ledger
          (env_steps
             (session [mkAcq [Connected 1; Connected 2] "a" None
                         [[BlobVerified "a"]; []]] init)
             [Connected 3]) "b")
       (elements
          (connections
             (env_steps
                (session [mkAcq [Connected 1; Connected 2] "a" None
                            [[BlobVerified "a"]; []]] init)
                [Connected 3])))
  ∧ count_occ request_eq_dec
      (requested
         (start_scheduled
            (env_steps
               (fst (get_blob "b" None
                       (env_steps
                          (session [mkAcq [Connected 1; Connected 2] "a" None
                                      [[BlobVerified "a"]; []]] init)
                          [Connected 3])))
               [Stop; RequestTimedOut 3])))
      (3, "b"%string) = 1.
Proof.
  destruct (get_blob_asks_every_pooled_peer
              [mkAcq [Connected 1; Connected 2] "a" None [[BlobVerified "a"]; []]]
              [Connected 3] "b" None) as (_ & _ & Hs & Hq).
  - vm_compute. reflexivity.
  - split; [exact Hs|]. apply Hq.
    eapply (bool_decide_unpack _). vm_compute. exact I.
Defined.

End CoverageExtras.

Section IsolationExtras.
Import Downloader.

Lemma only_for_refl (h : string) (st : state) : only_for h st st.
Proof. intros Hb. split_and!; [done|done|]. intros x Hx. by left. Qed.

Lemma only_for_trans (h : string) (st1 st2 st3 : state) :
  only_for h st1 st2 → only_for h st2 st3 → only_for h st1 st3.
Proof.
  intros H12 H23 Hb. destruct (H12 Hb) as (Hb2 & Hl2 & Hq2).
  destruct (H23 Hb2) as (Hb3 & Hl3 & Hq3).
  split_and!; [done| |].
  - intros h' Hne. by rewrite Hl3, Hl2.
  - intros x Hx. destruct (Hq3 x Hx) as [Hx2|Hh]; [|by right]. by apply Hq2.
Qed.

Lemma only_for_ext (h : string) (st st' : state) :
  calls st' = calls st → tasks st' = tasks st → scheduled st' = scheduled st →
  current_blob st' = current_blob st → requests st' = requests st →
  only_for h st st'.
Proof.
  intros Hc Ht Hs Hb Hr Hcur. unfold requested, pending, ledger.
  rewrite Hc, Ht, Hs, Hb, Hr. split_and!; [done|done|]. intros x Hx. by left.
Qed.

Lemma only_for_start (h : string) (st : state) :
  only_for h st (start_scheduled st).
Proof.
  intros Hcur. rewrite start_scheduled_requested.
  destruct (start_scheduled_spec st) as (_ & _ & _ & _ & _ & Hr & -> & _).
  split_and!; [done| |by left]. intros h' _. unfold ledger. by rewrite Hr.
Qed.

Lemma only_for_update (h : string) (st st' : state) :
  _update_requests st = Ok st' → only_for h st st'.
Proof.
  intros Hu Hcur.
  pose proof (update_requests_scheduled st st' Hu) as Hsch.
  apply update_requests_inv in Hu as (b & Hb & Hsame & Ht & Hl & Ho).
  assert (b = {| blob_hash := h |}) as -> by congruence. simpl in *.
  rewrite (pending_requested_update st st' _ Hb Hsame Hsch Ht). simpl.
  split_and!.
  - destruct Hsame as (_ & _ & -> & _). done.
  - done.
  - intros x Hx. apply elem_of_app in Hx as [Hx|Hx]; [by left|right].
    apply list_elem_of_fmap in Hx as (q & -> & _). done.
Qed.

Lemma only_for_launch (h : string) (st : state) :
  only_for h st (fst (launch_tasks st)).
Proof.
  intros Hcur.
  destruct (launch_tasks_spec st) as (_ & _ & _ & _ & _ & _ & Hb & _).
  split_and!.
  - congruence.
  - intros h' _. apply ledger_launch.
  - intros x Hx. left. by rewrite pending_requested_launch in Hx.
Qed.

Lemma only_for_env (h : string) (st : state) (e : event) :
  any_event e = true → only_for h st (env_step st e).
Proof.
  intros _ Hcur. destruct (env_step_frame st e) as (Ht & Hr & Hb & _ & Hq & _).
  unfold ledger. rewrite Hr, Hb, Hq.
  split_and!; [done|done|]. intros x Hx. by left.
Qed.

(** X14: the ledger entries are independent: an acquisition of chunk [h],
    under any schedule, leaves the entry of every other chunk as it was and
    sends no request for another chunk. *)
Theorem acquisition_touches_only_its_own_chunk
  (acqs : list acquisition) (a : acquisition) (h' : string) (p : peer) :
  h' ≠ acq_hash a →
  ledger (snd (get_blob_run (acq_sched a) (acq_hash a) (acq_length a)
                 (env_steps (session acqs init) (acq_before a)))) h'
  = ledger (session acqs init) h'
  ∧ ((p, h') ∈ requested
                 (snd (get_blob_run (acq_sched a) (acq_hash a) (acq_length a)
                         (env_steps (session acqs init) (acq_before a)))) →
     (p, h') ∈ requested (session acqs init)).
Proof.
  intros Hne. set (st := session acqs init).
  set (st1 := env_steps st (acq_before a)).
  assert (Idle st) as HI0 by apply session_Idle, Idle_init.
  assert (Idle st1) as HI by apply Idle_env_steps, HI0.
  assert (∀ st, only_for (acq_hash a) st (set_has_peers false st)) as Hclear
    by (intros st0; by apply only_for_ext).
  assert (∀ st l, only_for (acq_hash a) st (set_lock l st)) as Hlock
    by (intros st0 l; by apply only_for_ext).
  assert (forallb (forallb any_event) (acq_sched a) = true) as Hall.
  { induction (acq_sched a) as [|es s IHs]; [done|]. simpl.
    by rewrite forallb_any_event, IHs. }
  pose proof (get_blob_run_rel (only_for (acq_hash a)) (only_for_refl _)
                (only_for_trans _) (only_for_update _) (only_for_launch _)
                Hclear Hlock (only_for_start _) any_event (only_for_env _)
                (acq_sched a) (acq_hash a) (acq_length a) st1 HI Hall) as Hr.
  destruct (Hr eq_refl) as (_ & Hl & Hq).
  destruct (env_steps_frame (acq_before a) st) as (_ & Hreq & _).
  destruct (env_steps_idle (acq_before a) st (proj2 HI0)) as [_ Hrq].
  fold st1 in Hreq, Hrq.
  split.
  - rewrite (Hl h' Hne). unfold ledger. simpl. by rewrite Hreq.
  - intros Hp.
    destruct (Hq (p, h')) as [Hold|Hh].
    + apply elem_of_app. by left.
    + unfold requested, pending in Hold. simpl in Hold.
      destruct HI as [(_ & Ht & _) Hsch]. rewrite Ht, Hsch in Hold. simpl in Hold.
      rewrite app_nil_r in Hold. fold (requested st1) in Hold. by rewrite Hrq in Hold.
    + simpl in Hh. done.
Qed.

Lemma acquisition_touches_only_its_own_chunk_witness :
  ledger
    (snd (get_blob_run [[Connected 3]; []; []] "b" None
            (env_steps
               (session [mkAcq [Connected 1; Connected 2] "a" None
                           [[BlobVerified "a"]; []]] init) [])))
    "a"
  = ledger (session [mkAcq [Connected 1; Connected 2] "a" None
                       [[BlobVerified "a"]; []]] init) "a".
Proof.
  apply (acquisition_touches_only_its_own_chunk
           [mkAcq [Connected 1; Connected 2] "a" None [[BlobVerified "a"]; []]]
           (mkAcq [] "b" None [[Connected 3]; []; []]) "a" 0).
  simpl. discriminate.
Defined.

End IsolationExtras.

Section StarvationExtras.
Import Downloader.









End StarvationExtras.

Section CancellationExtras.
Import Downloader.

Lemma run_throw (sched : list (list event)) (st : state) (e : exn) :
  run sched (st, Throw e) = (Raised e, st).
Proof. by destruct sched. Qed.

Lemma run_return (sched : list (list event)) (st : state) (b : BlobFile) :
  run sched (st, Return b) = (Returned b, st).
Proof. by destruct sched. Qed.

Lemma run_suspend (es : list event) (sched : list (list event)) (st : state) (k : pc) :
  run (es :: sched) (st, Suspend k)
  = run sched (resume k (start_scheduled (env_steps st es))).
Proof. done. Qed.

Lemma cancel_requested_start (st : state) :
  cancel_requested (start_scheduled st) = cancel_requested st.
Proof.
  unfold cancel_requested.
  by destruct (start_scheduled_spec st) as (_ & _ & _ & _ & _ & _ & _ & _ & _ & -> & _).
Qed.

Lemma download_task_env_steps (es : list event) (st : state) (c : bool) :
  download_task st = Pending c →
  download_task (env_steps st es) = Pending (c || existsb is_stop es).
Proof.
  revert st c. induction es as [|e es IH]; intros st c Hd; simpl.
  - by rewrite orb_false_r.
  - pose proof (env_step_task_attrs st e) as Ha.
    destruct (is_stop e) eqn:He.
    + unfold stop_tasks in Ha. rewrite Hd in Ha. simpl in Ha.
      injection Ha as _ Hd'. rewrite (IH _ true Hd'). simpl.
      by rewrite orb_true_r.
    + injection Ha as _ Hd'. rewrite (IH _ c) by congruence. done.
Qed.

Lemma cancel_requested_env_steps (es : list event) (st : state) :
  forallb not_stop es = true →
  cancel_requested (env_steps st es) = cancel_requested st.
Proof.
  revert st. induction es as [|e es IH]; intros st Hes; [done|].
  simpl in *. apply andb_prop in Hes as [He Hes]. rewrite IH by done.
  pose proof (env_step_task_attrs st e) as Ha.
  assert (is_stop e = false) as Hns by (by destruct e).
  rewrite Hns in Ha. injection Ha as _ Hd. unfold cancel_requested. by rewrite Hd.
Qed.

Lemma verified_env_steps (es : list event) (st : state) (h : string) :
  BlobVerified h ∈ es → h ∈ verified (env_steps st es).
Proof.
  revert st. induction es as [|e es IH]; intros st Hin.
  - by apply elem_of_nil in Hin.
  - simpl. apply elem_of_cons in Hin as [<-|Hin]; [|by apply IH].
    destruct (env_steps_frame es (env_step st (BlobVerified h))) as (_ & _ & _ & _ & _ & Hsub).
    apply Hsub. simpl. set_solver.
Qed.

(** X16: once [download] has created the driving task, a call of [stop]
    while [get_blob] is suspended makes [get_blob] raise [CancelledError]
    at its next resumption, wherever it was suspended and whatever else
    happened meanwhile.  The stop does not cancel the fetch tasks that
    [get_blob] handed to the event loop: each of them has sent its request
    by the time the cancellation is delivered. *)
Theorem stop_cancels_a_suspended_get_blob
  (k : pc) (st : state) (c : bool) (es : list event) (sched : list (list event)) :
  download_task st = Pending c →
  existsb is_stop es = true →
  run (es :: sched) (st, Suspend k)
  = (Raised CancelledError, start_scheduled (env_steps st es))
  ∧ (tasks st = [] →
     requested (start_scheduled (env_steps st es)) = requested st ++ pending st).
Proof.
  intros Hd Hstop. split.
  - rewrite run_suspend. unfold resume. rewrite cancel_requested_start.
    unfold cancel_requested.
    rewrite (download_task_env_steps es st c Hd), Hstop, orb_true_r.
    apply run_throw.
  - apply requested_at_resumption.
Qed.

Lemma stop_cancels_a_suspended_get_blob_witness :
  run ([Connected 3; Stop; RequestTimedOut 1] :: [[BlobVerified "a"]])
      (fst (get_blob "a" None (download (env_steps init [Connected 1; Connected 2]))),
       Suspend L172)
  = (Raised CancelledError,
     start_scheduled
       (env_steps
          (fst (get_blob "a" None (download (env_steps init [Connected 1; Connected 2]))))
          [Connected 3; Stop; RequestTimedOut 1]))
  ∧ requested
      (start_scheduled
         (env_steps
            (fst (get_blob "a" None (download (env_steps init [Connected 1; Connected 2]))))
            [Connected 3; Stop; RequestTimedOut 1]))
    = [(1, "a"%string); (2, "a"%string)].
Proof.
  destruct (stop_cancels_a_suspended_get_blob L172
              (fst (get_blob "a" None (download (env_steps init [Connected 1; Connected 2]))))
              false [Connected 3; Stop; RequestTimedOut 1] [[BlobVerified "a"]])
    as [Hrun Hreq].
  - vm_compute. reflexivity.
  - vm_compute. reflexivity.
  - split; [exact Hrun|]. rewrite Hreq; vm_compute; reflexivity.
Defined.

(** X17: once the store has verified the current chunk while [get_blob]
    is suspended and no stop intervened, [get_blob] returns the handle at
    its next resumption from the wait on the signals, which is the second
    resumption when it was waiting for its fetch tasks; it creates no
    further fetch coroutine and records no further peer on the way. *)
Theorem get_blob_returns_once_verified
  (st : state) (b : BlobFile) (es1 es2 : list event) (sched : list (list event)) :
  current_blob st = Some b →
  cancel_requested st = false →
  forallb not_stop es1 = true → forallb not_stop es2 = true →
  BlobVerified (blob_hash b) ∈ es1 →
  run (es1 :: sched) (st, Suspend L173)
  = (Returned b, start_scheduled (env_steps st es1))
  ∧ run (es1 :: es2 :: sched) (st, Suspend L172)
    = (Returned b,
       start_scheduled (env_steps (start_scheduled (env_steps st es1)) es2))
  ∧ requests (start_scheduled (env_steps (start_scheduled (env_steps st es1)) es2))
    = requests st
  ∧ tasks (start_scheduled (env_steps (start_scheduled (env_steps st es1)) es2))
    = tasks st.
Proof.
  intros Hb Hc H1 H2 Hin.
  assert (∀ st', current_blob st' = Some b → cancel_requested st' = false →
                 blob_hash b ∈ verified st' →
                 resume L173 st' = (st', Return b)) as Hres.
  { intros st' Hb' Hc' Hv'. unfold resume. rewrite Hc', Hb'.
    unfold get_is_verified. by rewrite bool_decide_eq_true_2. }
  set (s1 := start_scheduled (env_steps st es1)).
  destruct (batch_frame es1 st) as (Ht1 & Hr1 & Hb1 & _ & _ & Hv1 & _).
  destruct (batch_frame es2 s1) as (Ht2 & Hr2 & Hb2 & _ & _ & Hv2 & _).
  fold s1 in Ht1, Hr1, Hb1, Hv1.
  pose proof (verified_env_steps es1 st _ Hin) as Hin1.
  assert (cancel_requested s1 = false) as Hc1.
  { subst s1. by rewrite cancel_requested_start, cancel_requested_env_steps. }
  split_and!.
  - rewrite run_suspend. fold s1.
    rewrite Hres; [apply run_return|congruence|done|by rewrite Hv1].
  - rewrite run_suspend. fold s1.
    assert (resume L172 s1 = (s1, Suspend L173)) as ->.
    { unfold resume. by rewrite Hc1. }
    rewrite run_suspend, Hres; [apply run_return|congruence| |].
    + by rewrite cancel_requested_start, cancel_requested_env_steps.
    + rewrite Hv2.
      destruct (env_steps_frame es2 s1) as (_ & _ & _ & _ & _ & Hsub).
      apply Hsub. by rewrite Hv1.
  - congruence.
  - congruence.
Qed.

Lemma get_blob_returns_once_verified_witness :
  run ([RequestTimedOut 1; BlobVerified "a"] :: [Connected 3] :: [])
      (fst (get_blob "a" None (env_steps init [Connected 1; Connected 2])),
       Suspend L172)
  = (Returned (blob_manager_get_blob "a" None),
     start_scheduled
       (env_steps
          (start_scheduled
             (env_steps
                (fst (get_blob "a" None (env_steps init [Connected 1; Connected 2])))
                [RequestTimedOut 1; BlobVerified "a"]))
          [Connected 3])).
Proof.
  apply (get_blob_returns_once_verified
           (fst (get_blob "a" None (env_steps init [Connected 1; Connected 2])))
           (blob_manager_get_blob "a" None)
           [RequestTimedOut 1; BlobVerified "a"] [Connected 3] []).
  - vm_compute. reflexivity.
  - vm_compute. reflexivity.
  - vm_compute. reflexivity.
  - vm_compute. reflexivity.
  - apply list_elem_of_In. right. left. reflexivity.
Defined.

(** X18: when the guarded block of [_download] leaves the two task
    attributes as [download] and [_download] set them, the cleanup requests
    the cancellation of both: of the accumulation task and of the driving
    task itself, which is still running its [finally] clause. *)
Theorem download_cleanup_cancels_both_tasks
  (assemble_decrypted_stream change_file_status finished_callback
     : state → result unit * state) (st : state) :
  accumulator_task
    (snd (_download_body assemble_decrypted_stream change_file_status
            finished_callback (set_accumulator_task (Pending false) (download st))))
  = Pending false →
  download_task
    (snd (_download_body assemble_decrypted_stream change_file_status
            finished_callback (set_accumulator_task (Pending false) (download st))))
  = Pending false →
  accumulator_task
    (snd (_download assemble_decrypted_stream change_file_status finished_callback
            (download st))) = Pending true
  ∧ download_task
      (snd (_download assemble_decrypted_stream change_file_status finished_callback
              (download st))) = Pending true.
Proof.
  intros Ha Hd. unfold _download, try_finally.
  destruct (_download_body _ _ _ _) as [r stb]. simpl in *.
  pose proof (stop_task_fields stb) as Hs. unfold stop_tasks in Hs.
  rewrite Ha, Hd in Hs. simpl in Hs. by injection Hs as -> ->.
Qed.

Lemma download_cleanup_cancels_both_tasks_witness :
  download_task
    (snd (_download (λ st, (Ok tt, env_steps st [Connected 1]))
            (λ st, (Ok tt, st)) (λ st, (Ok tt, st)) (download init)))
  = Pending true.
Proof.
  apply (download_cleanup_cancels_both_tasks
           (λ st, (Ok tt, env_steps st [Connected 1]))
           (λ st, (Ok tt, st)) (λ st, (Ok tt, st)) init).
  - vm_compute. reflexivity.
  - vm_compute. reflexivity.
Defined.

End CancellationExtras.

Section TimeoutClaims.
Import Downloader.

Lemma Idle_reached (a d : task) (acqs : list acquisition) (before : list event) :
  Idle (reached a d acqs before).
Proof. apply Idle_env_steps, session_Idle, Idle_started. Qed.

Lemma cancel_requested_resume (k : pc) (st : state) :
  cancel_requested (fst (resume k st)) = cancel_requested st.
Proof.
  destruct (untouched_resume k st) as (_ & _ & _ & Hd).
  unfold cancel_requested. by rewrite Hd.
Qed.

Lemma cancel_requested_batch (es : list event) (st : state) :
  forallb not_stop es = true →
  cancel_requested (start_scheduled (env_steps st es)) = cancel_requested st.
Proof.
  intros Hes. by rewrite cancel_requested_start, cancel_requested_env_steps.
Qed.

Lemma cancel_requested_get_blob (h : string) (len : option Z) (st : state) :
  cancel_requested (fst (get_blob h len st)) = cancel_requested st.
Proof.
  assert (untouched st (fst (get_blob h len st))) as (_ & _ & _ & Hd).
  { unfold get_blob. destruct (lock st); [apply untouched_refl|].
    eapply untouched_trans;
      [|exact (enter_rel untouched untouched_refl untouched_trans untouched_update
                 untouched_launch untouched_clear untouched_lock h len st)].
    by split_and!. }
  unfold cancel_requested. by rewrite Hd.
Qed.

Lemma resume_L173_verified (b : BlobFile) (st : state) :
  current_blob st = Some b → cancel_requested st = false →
  blob_hash b ∈ verified st →
  resume L173 st = (st, Return b).
Proof.
  intros Hb Hc Hv. unfold resume. rewrite Hc, Hb.
  unfold get_is_verified. by rewrite bool_decide_eq_true_2.
Qed.

(** A resumption that is not cancelled returns the handle or suspends
    again. *)
Lemma resume_goes_on (b : BlobFile) (k : pc) (st : state) (e : exn) :
  lock st = false → current_blob st = Some b → cancel_requested st = false →
  k = L172 ∨ k = L173 →
  snd (resume k st) ≠ Throw e.
Proof.
  intros Hl Hb Hc [->| ->]; unfold resume; rewrite Hc; [done|].
  rewrite Hb. destruct (get_is_verified b st) eqn:Hv; [done|].
  destruct (loop_head_pass st b Hb Hl Hv) as ([-> | ->] & _); done.
Qed.

(** Without a stop, timeouts and connections in any number and order do
    not keep [get_blob] from returning the handle: it returns at the latest
    at the second resumption after the store has verified the chunk. *)
Lemma run_returns_once_verified (b : BlobFile) (sched : list (list event))
  (es_last : list event) (c : state * ctl) :
  good b c → cancel_requested (fst c) = false → (∀ e, snd c ≠ Throw e) →
  forallb (forallb not_stop) sched = true → forallb not_stop es_last = true →
  BlobVerified (blob_hash b) ∈ es_last →
  fst (run (sched ++ [es_last; []]) c) = Returned b.
Proof.
  revert c. induction sched as [|es sched IH];
    intros [st [b'|e|k]] Hg Hc Hne Hs Hl Hin; simpl in Hc.
  - rewrite run_return. by destruct Hg as (_ & -> & _).
  - by destruct (Hne e).
  - destruct Hg as (HI & Hk). simpl in HI, Hk.
    set (s1 := start_scheduled (env_steps st es_last)).
    destruct (batch_frame es_last st) as (_ & _ & Hb1 & _ & _ & Hv1 & _).
    fold s1 in Hb1, Hv1.
    assert (current_blob st = Some b) as Hb by (by destruct k).
    assert (cancel_requested s1 = false) as Hc1
      by (subst s1; by rewrite cancel_requested_batch).
    assert (blob_hash b ∈ verified s1) as Hin1
      by (rewrite Hv1; by apply verified_env_steps).
    assert (resume L173 s1 = (s1, Return b)) as Hret
      by (apply resume_L173_verified; [congruence|done|done]).
    destruct k as [h len| | |]; try done.
    + change (run ([] ++ [es_last; []]) (st, Suspend L172))
        with (run [[]] (resume L172 s1)).
      assert (resume L172 s1 = (s1, Suspend L173)) as ->
        by (unfold resume; by rewrite Hc1).
      rewrite run_suspend. simpl.
      destruct (start_scheduled_spec s1)
        as (_ & _ & _ & _ & _ & _ & Hb2 & _ & _ & _ & Hv2).
      rewrite resume_L173_verified with (b := b); [done|congruence| |by rewrite Hv2].
      by rewrite cancel_requested_start.
    + change (run ([] ++ [es_last; []]) (st, Suspend L173))
        with (run [[]] (resume L173 s1)).
      by rewrite Hret.
  - rewrite run_return. by destruct Hg as (_ & -> & _).
  - by destruct (Hne e).
  - simpl in Hs. apply andb_prop in Hs as [Hes Hs].
    change (run ((es :: sched) ++ [es_last; []]) (st, Suspend k))
      with (run (sched ++ [es_last; []])
              (resume k (start_scheduled (env_steps st es)))).
    set (s1 := start_scheduled (env_steps st es)).
    assert (cancel_requested s1 = false) as Hc1
      by (subst s1; by rewrite cancel_requested_batch).
    apply IH; try done.
    + by apply batch_good.
    + by rewrite cancel_requested_resume.
    + intros e. destruct Hg as (HI & Hk). simpl in HI, Hk.
      destruct (batch_frame es st) as (_ & _ & Hb1 & _).
      destruct (Idle_batch es st HI) as [(Hl1 & _) _].
      fold s1 in Hb1, Hl1.
      apply (resume_goes_on b); try done.
      * rewrite Hb1. by destruct k.
      * by destruct k; auto.
Qed.

(** C5: a timeout of a fetch task is never surfaced to the caller of
    [get_blob].  Take any state in which [get_blob] can be called, a chunk
    that is not verified there and a peer [p] of the pool.  The first
    segment records [p] in the ledger entry of the chunk and suspends.
    (1) No fetch task ends with [TimeoutError]; the one for [p] that times
    out next ends normally, takes [p] out of the pool and leaves every
    other member and the ledger as they were.  (2) Under no schedule does
    [get_blob] raise anything but the [CancelledError] of a cancelled
    driving task.  (3) At the resumption that follows the timeout and any
    further events, a [get_blob] that is not cancelled and whose chunk is
    still unverified runs the next pass of its loop and suspends again
    after handing out a fetch task for exactly the members of the pool that
    the ledger entry does not hold: for those that remain and those that
    have connected since, and none for [p], even if [p] has reconnected.
    (4) Without a stop, whatever timeouts and connections occur in
    whatever order, [get_blob] returns the handle once the store has
    verified the chunk. *)
Theorem timeout_is_absorbed
  (a d : task) (acqs : list acquisition) (before : list event)
  (h : string) (len : option Z) (p : peer) :
  let st0 := reached a d acqs before in
  let b := blob_manager_get_blob h len in
  let s := fst (get_blob h len st0) in
  get_is_verified b st0 = false →
  p ∈ connections st0 →
  ((snd (get_blob h len st0) = Suspend L172 ∨ snd (get_blob h len st0) = Suspend L173)
   ∧ p ∈ ledger s h)
  ∧ ((∀ q s' r, fst <$> _request_blob q (Raise TimeoutError) s' = Some r →
                r ≠ Raise TimeoutError)
     ∧ fst <$> _request_blob p (Raise TimeoutError) s = Some (Ok tt)
     ∧ connections (env_step s (RequestTimedOut p)) = connections st0 ∖ {[p]}
     ∧ requests (env_step s (RequestTimedOut p)) = requests s)
  ∧ (∀ sched e, fst (get_blob_run sched h len st0) = Raised e → e = CancelledError)
  ∧ (∀ es,
       let s' := start_scheduled (env_steps s (RequestTimedOut p :: es)) in
       cancel_requested s' = false →
       get_is_verified b s' = false →
       resume L172 s' = (s', Suspend L173)
       ∧ (snd (resume L173 s') = Suspend L172 ∨ snd (resume L173 s') = Suspend L173)
       ∧ (∀ q, q ∈ scheduled (fst (resume L173 s'))
               ↔ (q ∈ connections s') ∧ (q ∉ ledger s h))
       ∧ (p ∉ scheduled (fst (resume L173 s')))
       ∧ p ∈ ledger (fst (resume L173 s')) h)
  ∧ (∀ sched es_last,
       cancel_requested st0 = false →
       forallb (forallb not_stop) sched = true →
       forallb not_stop es_last = true →
       BlobVerified h ∈ es_last →
       fst (get_blob_run (sched ++ [es_last; []]) h len st0) = Returned b).
Proof.
  intros st0 b s Hv Hp.
  pose proof (Idle_reached a d acqs before) as HI. fold st0 in HI.
  pose proof (get_blob_good h len st0 HI) as Hg. fold b in Hg.
  destruct HI as [(Hl & Ht & Hok) Hsch].
  destruct (get_blob_pass h len st0 Hl Hv) as (Hc & Ht' & Hs' & Hled & _ & Hcn & Hb).
  fold s b in Ht', Hs', Hled, Hcn, Hb.
  assert (p ∈ ledger s h) as Hpl.
  { rewrite Hled. destruct (decide (p ∈ ledger st0 h)) as [Hin|Hnin].
    - apply elem_of_app. by left.
    - apply elem_of_app. right. apply elem_of_unasked. split; [done|].
      by apply elem_of_elements. }
  assert (lock s = false) as Hls by apply Hg.
  split_and!; try done.
  - intros q s' r. unfold _request_blob.
    destruct (lock s'); [done|]. simpl. case_bool_decide; by intros [= <-].
  - destruct (request_blob_timeout p s Hls) as (s1 & -> & _).
    rewrite bool_decide_eq_true_2; [done|]. by rewrite Hcn.
  - unfold env_step. destruct (request_blob_timeout p s Hls) as (s1 & Heq & Hc1 & _).
    rewrite Heq. simpl. by rewrite Hc1, Hcn.
  - by destruct (env_step_frame s (RequestTimedOut p)) as (_ & -> & _).
  - intros sched e. apply (run_raises_only_cancel b). apply get_blob_acquiring.
  - intros es s' Hcs Hvs.
    destruct (batch_frame (RequestTimedOut p :: es) s)
      as (Ht1 & Hr1 & Hb1 & Hl1 & _ & _ & Hs1).
    fold s' in Ht1, Hr1, Hb1, Hl1, Hs1.
    assert (current_blob s' = Some b) as Hbs by congruence.
    assert (lock s' = false) as Hl' by congruence.
    assert (ledger s' h = ledger s h) as Hlg by (unfold ledger; by rewrite Hr1).
    destruct (loop_head_pass s' b Hbs Hl' Hvs) as (Hc2 & _ & Hs2 & Hled2 & _).
    change (blob_hash b) with h in Hs2, Hled2.
    rewrite Hs1, Ht1, Ht', Hlg in Hs2. rewrite Hlg in Hled2. simpl in Hs2.
    assert (resume L173 s' = loop_head s') as Hres.
    { unfold resume. by rewrite Hcs, Hbs, Hvs. }
    rewrite Hres.
    assert (∀ q, q ∈ scheduled (fst (loop_head s'))
                 ↔ (q ∈ connections s') ∧ (q ∉ ledger s h)) as Hiff.
    { intros q. rewrite Hs2, <- (Permutation_rev (unasked _ _)).
      rewrite elem_of_unasked, elem_of_elements. tauto. }
    split_and!; try done.
    + unfold resume. by rewrite Hcs.
    + intros Hin. by apply Hiff in Hin as [_ Hn].
    + rewrite Hled2. apply elem_of_app. by left.
  - intros sched es_last Hc0 Hs Hes Hin. unfold get_blob_run.
    apply run_returns_once_verified; try done.
    + by rewrite cancel_requested_get_blob.
    + intros e. by destruct Hc as [-> | ->].
Qed.

Lemma timeout_is_absorbed_witness :
  (3 ∈ scheduled
         (fst (resume L173
                 (start_scheduled
                    (env_steps
                       (fst (get_blob "a" None
                               (reached NoTask (Pending false) []
                                  [Connected 1; Connected 2])))
                       [RequestTimedOut 1; Connected 3; Connected 1])))))
  ∧ (1 ∉ scheduled
           (fst (resume L173
                   (start_scheduled
                      (env_steps
                         (fst (get_blob "a" None
                                 (reached NoTask (Pending false) []
                                    [Connected 1; Connected 2])))
                         [RequestTimedOut 1; Connected 3; Connected 1])))))
  ∧ fst (get_blob_run
           ([[RequestTimedOut 1]; [RequestTimedOut 2; RequestTimedOut 1]; [Connected 3]]
            ++ [[BlobVerified "a"]; []])
           "a" None (reached NoTask (Pending false) [] [Connected 1; Connected 2]))
    = Returned (blob_manager_get_blob "a" None).
Proof.
  destruct (timeout_is_absorbed NoTask (Pending false) []
              [Connected 1; Connected 2] "a" None 1)
    as (_ & _ & _ & Hnext & Hret).
  - vm_compute. reflexivity.
  - eapply (bool_decide_unpack _). vm_compute. exact I.
  - destruct (Hnext [Connected 3; Connected 1]) as (_ & _ & Hiff & Hnot & _).
    + vm_compute. reflexivity.
    + vm_compute. reflexivity.
    + split_and!.
      * apply Hiff. split; eapply (bool_decide_unpack _); vm_compute; exact I.
      * exact Hnot.
      * apply Hret.
        -- vm_compute. reflexivity.
        -- vm_compute. reflexivity.
        -- vm_compute. reflexivity.
        -- apply list_elem_of_In. left. reflexivity.
Defined.

End TimeoutClaims.

Section PoolOnlyExtras.
Import Downloader.

Lemma pool_only_refl (st : state) : pool_only st st.
Proof. split; [done|]. intros x Hx. by left. Qed.

Lemma pool_only_trans (st1 st2 st3 : state) :
  pool_only st1 st2 → pool_only st2 st3 → pool_only st1 st3.
Proof.
  intros [Hc12 H12] [Hc23 H23]. split; [congruence|].
  intros x Hx. destruct (H23 x Hx) as [Hx2|Hp]; [by apply H12|].
  right. by rewrite <- Hc12.
Qed.

Lemma pool_only_ext (st st' : state) :
  connections st' = connections st →
  calls st' = calls st → tasks st' = tasks st → scheduled st' = scheduled st →
  current_blob st' = current_blob st →
  pool_only st st'.
Proof.
  intros Hcn Hc Ht Hs Hb. split; [done|]. unfold requested, pending.
  rewrite Hc, Ht, Hs, Hb. intros x Hx. by left.
Qed.

Lemma pool_only_update (st st' : state) :
  _update_requests st = Ok st' → pool_only st st'.
Proof.
  intros Hu. pose proof (update_requests_scheduled st st' Hu) as Hsch.
  apply update_requests_inv in Hu as (b & Hb & Hsame & Ht & _).
  split; [apply Hsame|].
  rewrite (pending_requested_update st st' b Hb Hsame Hsch Ht).
  intros x Hx. apply elem_of_app in Hx as [Hx|Hx]; [by left|right].
  apply list_elem_of_fmap in Hx as (q & -> & Hq). simpl.
  apply elem_of_unasked in Hq as [_ Hq]. by apply elem_of_elements in Hq.
Qed.

Lemma pool_only_launch (st : state) : pool_only st (fst (launch_tasks st)).
Proof.
  split.
  - by destruct (launch_tasks_spec st) as (_ & _ & _ & -> & _).
  - intros x Hx. left. by rewrite pending_requested_launch in Hx.
Qed.

Lemma pool_only_clear (st : state) : pool_only st (set_has_peers false st).
Proof. by apply pool_only_ext. Qed.

Lemma pool_only_lock (st : state) (l : bool) : pool_only st (set_lock l st).
Proof. by apply pool_only_ext. Qed.

Lemma pending_nil (st : state) :
  tasks st = [] → scheduled st = [] → pending st = [].
Proof.
  intros Ht Hs. unfold pending. rewrite Ht, Hs. by destruct (current_blob st).
Qed.

(** The requests sent by the time [get_blob] is resumed were sent before
    the suspension or belong to the fetch tasks created until then. *)
Lemma requested_by_resumption (es : list event) (st : state) (x : peer * string) :
  x ∈ requested (start_scheduled (env_steps st es)) →
  x ∈ requested st ++ pending st.
Proof.
  intros Hx. destruct (batch_frame es st) as (_ & _ & _ & _ & <- & _).
  apply elem_of_app. by left.
Qed.

(** X19: in every state between two segments of a sequence of
    acquisitions the lock is free and no coroutine created by
    [_update_requests] is left in [self.tasks]: each one has been handed to
    [asyncio.wait] before [get_blob] suspends or returns. *)
Theorem lock_free_and_no_coroutine_left (acqs : list acquisition)
  (before : list event) :
  lock (env_steps (session acqs init) before) = false
  ∧ tasks (env_steps (session acqs init) before) = [].
Proof.
  destruct (Inv_env_steps before _ (session_Inv acqs init Idle_init)) as (Hl & Ht & _).
  done.
Qed.

(** X20: a segment of [get_blob], the first one or a resumption, sends
    requests only to peers that are in the pool when it runs: a peer that
    was evicted and has not reconnected gets no request, neither in the
    segment nor from the fetch tasks that the segment hands to the event
    loop, whatever happens before [get_blob] is resumed. *)
Theorem get_blob_asks_only_pooled_peers
  (acqs : list acquisition) (before : list event) (p : peer) (h' : string) :
  p ∉ connections (env_steps (session acqs init) before) →
  (p, h') ∉ requested (env_steps (session acqs init) before) →
  (∀ h len,
     ((p, h') ∉ requested (fst (get_blob h len (env_steps (session acqs init) before))))
     ∧ ∀ es,
         (p, h') ∉ requested
                     (start_scheduled
                        (env_steps
                           (fst (get_blob h len (env_steps (session acqs init) before)))
                           es)))
  ∧ (∀ k, (∀ h len, k ≠ L142 h len) →
          ((p, h') ∉ requested (fst (resume k (env_steps (session acqs init) before))))
          ∧ ∀ es,
              (p, h') ∉ requested
                          (start_scheduled
                             (env_steps
                                (fst (resume k (env_steps (session acqs init) before)))
                                es))).
Proof.
  intros Hp Hq. set (st := env_steps (session acqs init) before) in *.
  assert (Idle st) as HI by apply Idle_env_steps, session_Idle, Idle_init.
  destruct HI as [(Hl & Ht & Hok) Hsch].
  assert (∀ st', pool_only st st' → (p, h') ∉ requested st' ++ pending st') as Huse.
  { intros st' [_ Hr] Hin. destruct (Hr (p, h') Hin) as [Hold|Hpool]; [|done].
    rewrite (pending_nil st Ht Hsch), app_nil_r in Hold. done. }
  assert (∀ st', pool_only st st' →
                 ((p, h') ∉ requested st')
                 ∧ ∀ es, (p, h') ∉ requested (start_scheduled (env_steps st' es)))
    as Hboth.
  { intros st' Hpo. split.
    - intros Hin. apply (Huse st' Hpo), elem_of_app. by left.
    - intros es Hin. by apply (Huse st' Hpo), (requested_by_resumption es). }
  split.
  - intros h len. apply Hboth. unfold get_blob. rewrite Hl.
    eapply pool_only_trans;
      [|exact (enter_rel pool_only pool_only_refl pool_only_trans pool_only_update
                 pool_only_launch pool_only_clear pool_only_lock h len st)].
    split; [done|]. unfold requested, pending. simpl. rewrite Ht, Hsch. simpl.
    intros x Hx. left. rewrite app_nil_r in Hx. apply elem_of_app. by left.
  - intros k Hk. apply Hboth.
    by apply (resume_rel pool_only pool_only_refl pool_only_trans pool_only_update
                pool_only_launch pool_only_clear pool_only_lock).
Qed.

Lemma get_blob_asks_only_pooled_peers_witness :
  ((1, "a"%string)
   ∉ requested
       (fst (get_blob "a" None
               (env_steps (session [] init) [Connected 1; Connected 2; RequestTimedOut 1]))))
  ∧ (1, "a"%string)
    ∉ requested
        (start_scheduled
           (env_steps
              (fst (get_blob "a" None
                      (env_steps (session [] init)
                         [Connected 1; Connected 2; RequestTimedOut 1])))
              [Connected 3])).
Proof.
  destruct (get_blob_asks_only_pooled_peers []
              [Connected 1; Connected 2; RequestTimedOut 1] 1 "a") as [Hg _].
  - eapply (bool_decide_unpack _). vm_compute. exact I.
  - eapply (bool_decide_unpack _). vm_compute. exact I.
  - split; [apply Hg|apply (proj2 (Hg "a" None))].
Defined.

End PoolOnlyExtras.
